(** * dir2txt: a shallow embedding of [src/dir2txt.py]

    The program walks a directory, reads every file as text (truncating large
    files, unpacking archives) and concatenates everything into one document
    headed by a tree listing.  This development embeds the functions of
    [dir2txt.py] as Rocq functions and proves properties of them.

    Conventions of the embedding.
    - A Python [str] is a list of Unicode code points ([list N]); string
      comparison, [in], [strip], [split] and [join] are defined on it with
      Python's meaning.
    - Code that can raise returns a [result]; code that also creates files
      runs in the monad [io], which threads the file system and keeps the
      files created before an exception was raised.
    - The file system is a record of what the operating system and the
      archive libraries answer for each path: existence, size, readability,
      the text seen through [open(path, "r")], and the archive views. *)

From Stdlib Require Import List ZArith NArith Bool Lia.
From Stdlib Require Import String Ascii DecimalString.
From Stdlib Require Import Sorting.Sorted Sorting.Permutation.
Import ListNotations.

(* ================================================================== *)
(** ** Python strings *)

Module PyStr.

(** A character is its code point; a string is the list of its characters. *)
Definition char := N.
Definition str := list char.

(** [py "abc"] is the Python literal ["abc"] (ASCII literals only). *)
Definition py (s : string) : str :=
  List.map N_of_ascii (list_ascii_of_string s).

Definition nl : char := 10%N.
Definition slash : char := 47%N.

(** [a == b] on strings. *)
Fixpoint str_eqb (a b : str) : bool :=
  match a, b with
  | [], [] => true
  | x :: a', y :: b' => N.eqb x y && str_eqb a' b'
  | _, _ => false
  end.

(** [a <= b] on strings: lexicographic on code points. *)
Fixpoint str_leb (a b : str) : bool :=
  match a, b with
  | [], _ => true
  | _ :: _, [] => false
  | x :: a', y :: b' =>
      if N.ltb x y then true
      else if N.eqb x y then str_leb a' b'
      else false
  end.

(** [str.isspace] for one character: the code points for which CPython's
    [_PyUnicode_IsWhitespace] answers true. *)
Definition isspace (c : char) : bool :=
  ((9 <=? c) && (c <=? 13) || (28 <=? c) && (c <=? 32)
   || (c =? 133) || (c =? 160) || (c =? 5760)
   || (8192 <=? c) && (c <=? 8202)
   || (c =? 8232) || (c =? 8233) || (c =? 8239) || (c =? 8287)
   || (c =? 12288))%N.

(** [s.lstrip(chars)], [s.rstrip(chars)], [s.strip(chars)], the set of
    characters given as a predicate. *)
Fixpoint lstrip_by (p : char -> bool) (s : str) : str :=
  match s with
  | c :: s' => if p c then lstrip_by p s' else s
  | [] => []
  end.

Definition rstrip_by (p : char -> bool) (s : str) : str :=
  rev (lstrip_by p (rev s)).

Definition strip_by (p : char -> bool) (s : str) : str :=
  rstrip_by p (lstrip_by p s).

(** [s.strip()]: whitespace removed at both ends. *)
Definition strip (s : str) : str := strip_by isspace s.

(** [s.rstrip()]: whitespace removed at the right end only. *)
Definition rstrip (s : str) : str := rstrip_by isspace s.

(** [s.strip("/")]. *)
Definition strip_slash (s : str) : str := strip_by (N.eqb slash) s.

(** [s.split(sep)] for a one-character separator: never the empty list. *)
Fixpoint split (sep : char) (s : str) : list str :=
  match s with
  | [] => [[]]
  | c :: s' =>
      if N.eqb c sep then [] :: split sep s'
      else match split sep s' with
           | w :: ws => (c :: w) :: ws
           | [] => [[c]]
           end
  end.

(** [sep.join(parts)]. *)
Fixpoint join (sep : str) (parts : list str) : str :=
  match parts with
  | [] => []
  | [p] => p
  | p :: ps => p ++ sep ++ join sep ps
  end.

(** [t.startswith(ex)]. *)
Fixpoint startswith (ex t : str) : bool :=
  match ex, t with
  | [], _ => true
  | _ :: _, [] => false
  | x :: ex', y :: t' => N.eqb x y && startswith ex' t'
  end.

(** [t.endswith(ex)]. *)
Definition endswith (ex t : str) : bool := startswith (rev ex) (rev t).

(** [ex in t]: [ex] occurs in [t] as a contiguous substring. *)
Fixpoint contains (ex t : str) : bool :=
  startswith ex t
  || match t with
     | [] => false
     | _ :: t' => contains ex t'
     end.

(** [str(n)] for an [int]. *)
Definition str_of_Z (n : Z) : str :=
  py (NilZero.string_of_int (Z.to_int n)).

(** [bool(s)]: a string is true when it is not empty. *)
Definition nonempty (s : str) : bool :=
  match s with [] => false | _ :: _ => true end.

(** The relation that [contains] decides. *)
Definition substring (ex t : str) : Prop :=
  exists pre post, t = pre ++ ex ++ post.

End PyStr.
Import PyStr.

Local Open Scope Z_scope.

(* ================================================================== *)
(** ** [ignores_apply] *)

(** [[t for t in targets if not any(ex in t for ex in ignores)]] *)
Definition ignores_apply (ignores targets : list str) : list str :=
  filter (fun t => negb (existsb (fun ex => contains ex t) ignores)) targets.

(* ================================================================== *)
(** ** Exceptions *)

(** The exception classes the program meets; all of them derive from
    [Exception].  [exn_msg] is [str(e)]. *)
Inductive exn_class :=
| FileNotFoundError
| PermissionError
| UnicodeDecodeError
| OtherException.

Record exn := Exn { exn_kind : exn_class; exn_msg : str }.

Inductive result (A : Type) :=
| Ok (a : A)
| Raise (e : exn).
Arguments Ok {A} a.
Arguments Raise {A} e.

Definition is_UnicodeDecodeError (e : exn) : bool :=
  match exn_kind e with UnicodeDecodeError => true | _ => false end.

(** [try: r  except UnicodeDecodeError: h] on a computation without effects. *)
Definition except_UnicodeDecodeError {A} (r : result A) (h : A) : result A :=
  match r with
  | Ok a => Ok a
  | Raise e => if is_UnicodeDecodeError e then Ok h else Raise e
  end.

(* ================================================================== *)
(** ** Programs with a state and exceptions *)

(** A program over a state [S] returns a value or raises, and leaves a
    state behind in both cases: what was written before an exception stays
    written. *)
Definition prog (S A : Type) : Type := S -> result A * S.

Definition ret {S A} (a : A) : prog S A := fun s => (Ok a, s).

Definition bind {S A B} (m : prog S A) (k : A -> prog S B) : prog S B :=
  fun s =>
    match m s with
    | (Ok a, s') => k a s'
    | (Raise e, s') => (Raise e, s')
    end.

(** A computation that has no effect on the state. *)
Definition lift {S A} (r : S -> result A) : prog S A := fun s => (r s, s).

(** [try: m  except Exception: h]. *)
Definition try_except {S A} (m : prog S A) (h : exn -> prog S A) : prog S A :=
  fun s =>
    match m s with
    | (Ok a, s') => (Ok a, s')
    | (Raise e, s') => h e s'
    end.

Declare Scope prog_scope.
Delimit Scope prog_scope with prog.
Notation "x <- m ;; k" := (bind m (fun x => k))
  (at level 61, m at next level, right associativity) : prog_scope.

(** [for x in xs: body x]. *)
Fixpoint for_each {S A} (xs : list A) (body : A -> prog S unit)
  : prog S unit :=
  match xs with
  | [] => ret tt
  | x :: xs' => bind (body x) (fun _ => for_each xs' body)
  end.

(* ================================================================== *)
(** ** The file system *)

(** What a file opened with [open(path, "r")] yields: the lines that
    successive [readline()] calls return (each with its line end, none of
    them empty), until the end of the file or until the decoder meets bytes
    that are not text.  The decoder works ahead in blocks, so the error may
    come before the line that holds the bad bytes; the stream records where
    the reader sees it. *)
Inductive text_stream :=
| Eof
| Line (line : str) (rest : text_stream)
| Undecodable (msg : str).

Record file := {
  st_size : Z;            (* os.path.getsize *)
  can_read : bool;        (* whether open() is permitted *)
  text : text_stream      (* the content as open(path, "r") reads it *)
}.

Inductive archive_type := Zip | Tar | Gz | Bz2 | Xz.

(** A zip archive: for each name of [namelist()], in order, what
    [z.open(name).read().decode(errors="ignore")] gives. *)
Definition zip_archive := list (str * result str).

(** A tar member: its name, [isfile()], and what [extractfile(member)]
    followed by [read().decode(errors="ignore")] gives ([None] when
    [extractfile] returns [None]). *)
Record tar_member := {
  tm_name : str;
  tm_isfile : bool;
  tm_extract : result (option str)
}.

(** What the archive libraries make of a path on disk. *)
Record disk_entry := {
  as_file : file;
  (* [None] when [zipfile.is_zipfile] is false, else what [ZipFile(path)]
     gives *)
  as_zip : option (result zip_archive);
  (* [None] when [tarfile.is_tarfile] is false, else what
     [tarfile.open(path, "r:*").getmembers()] gives *)
  as_tar : option (result (list tar_member));
  (* what [opener(path, "rt", errors="ignore").read()] gives for
     [gzip.open], [bz2.open], [lzma.open] *)
  as_stream : archive_type -> result str
}.

(** A file is named by a path, or is a temporary file: the [n]-th one that
    [tempfile.NamedTemporaryFile] created.  The names it hands out are new,
    so a temporary file is never one of the paths. *)
Inductive file_name :=
| Path (p : str)
| TempName (n : nat).

(** The file system: the directory tree that is read, and the temporary
    files created so far, in the order of their creation.  The program has
    no operation that removes a file. *)
Record fs := {
  disk : str -> option disk_entry;
  temps : list file
}.

Definition lookup (st : fs) (name : file_name) : option file :=
  match name with
  | Path p => option_map as_file (disk st p)
  | TempName n => nth_error (temps st) n
  end.

(** [os.path.exists] and [os.path.getsize]; the size is asked for only after
    the file was found to exist. *)
Definition path_exists (st : fs) (name : file_name) : bool :=
  match lookup st name with Some _ => true | None => false end.

Definition getsize (st : fs) (name : file_name) : Z :=
  match lookup st name with Some f => st_size f | None => 0 end.

(** [open(name, "r")]; the messages of the two errors are given without the
    file name that Python adds to them. *)
Definition no_such_file : exn :=
  Exn FileNotFoundError (py "[Errno 2] No such file or directory").
Definition permission_denied : exn :=
  Exn PermissionError (py "[Errno 13] Permission denied").

Definition open_text (st : fs) (name : file_name) : result text_stream :=
  match lookup st name with
  | None => Raise no_such_file
  | Some f => if can_read f then Ok (text f) else Raise permission_denied
  end.

(** [file.readline()]: the next line, or [""] at the end of the file. *)
Definition readline (file : text_stream) : result (str * text_stream) :=
  match file with
  | Eof => Ok ([], Eof)
  | Line line rest => Ok (line, rest)
  | Undecodable msg => Raise (Exn UnicodeDecodeError msg)
  end.

(** [file.read()]. *)
Fixpoint read (file : text_stream) : result str :=
  match file with
  | Eof => Ok []
  | Line line rest =>
      match read rest with
      | Ok s => Ok (line ++ s)
      | Raise e => Raise e
      end
  | Undecodable msg => Raise (Exn UnicodeDecodeError msg)
  end.

(** The lines of a stream that can be read, and whether the stream ends at
    the end of the file rather than in a decoding error. *)
Fixpoint good_lines (file : text_stream) : list str :=
  match file with
  | Line line rest => line :: good_lines rest
  | _ => []
  end.

Fixpoint ends_cleanly (file : text_stream) : bool :=
  match file with
  | Eof => true
  | Line _ rest => ends_cleanly rest
  | Undecodable _ => false
  end.

(** The invariant of streams: [readline] returns [""] only at the end. *)
Definition stream_ok (file : text_stream) : bool :=
  forallb nonempty (good_lines file).

(* ================================================================== *)
(** ** Configuration constants *)

(** [MAX_LINES_FOR_LARGE_FILE] is an [int] or [None]. *)
Record config := {
  READ_COMPRESSED_FILES : bool;
  LARGE_SIZE_FILE : Z;                      (* MB *)
  MAX_LINES_FOR_LARGE_FILE : option Z
}.

(** The values in the source. *)
Definition shipped : config := {|
  READ_COMPRESSED_FILES := true;
  LARGE_SIZE_FILE := 10;
  MAX_LINES_FOR_LARGE_FILE := Some 1000
|}.

(* ================================================================== *)
(** ** [file_is_large] and [read_file] *)

Definition file_is_large (st : fs) (file_path : file_name) (threshold_mb : Z)
  : bool :=
  if path_exists st file_path then
    let file_size := getsize st file_path in
    if file_size >? threshold_mb * 1024 * 1024 then true else false
  else false.

(** The loop of [read_line_by_line]:
    [for line in file: lines.append(line.strip())]. *)
Fixpoint strip_each_line (file : text_stream) (lines : list str)
  : result (list str) :=
  match file with
  | Eof => Ok lines
  | Line line rest => strip_each_line rest (lines ++ [strip line])
  | Undecodable msg => Raise (Exn UnicodeDecodeError msg)
  end.

(** The loop of [read_n_lines_from_file]: [count] rounds of [readline],
    left at the first empty answer. *)
Fixpoint strip_n_lines (count : nat) (file : text_stream) (lines : list str)
  : result (list str) :=
  match count with
  | O => Ok lines
  | S count' =>
      match readline file with
      | Raise e => Raise e
      | Ok (line, file') =>
          if nonempty line
          then strip_n_lines count' file' (lines ++ [strip line])
          else Ok lines
      end
  end.

Section ReadFile.

Variable cfg : config.
Variable st : fs.
Variable file_path : file_name.

Definition read_line_by_line : result str :=
  match open_text st file_path with
  | Raise e => Raise e
  | Ok file =>
      match strip_each_line file [] with
      | Raise e => Raise e
      | Ok lines => Ok (join [nl] lines)
      end
  end.

Definition read_all : result str :=
  match open_text st file_path with
  | Raise e => Raise e
  | Ok file => read file
  end.

Definition read_n_lines_from_file (n : Z) : result str :=
  match open_text st file_path with
  | Raise e => Raise e
  | Ok file =>
      match strip_n_lines (Z.to_nat n) file [] with
      | Raise e => Raise e
      | Ok lines =>
          Ok (join [nl] lines
              ++ [nl] ++ py "..." ++ [nl] ++ py "There are only "
              ++ str_of_Z n ++ py " lines of the file.")
      end
  end.

Definition read_file (line_by_line : bool) : result str :=
  if file_is_large st file_path (LARGE_SIZE_FILE cfg) then
    match MAX_LINES_FOR_LARGE_FILE cfg with
    | Some n =>
        if n =? 0 then Ok (py "The file could not be read." ++ [nl])
        else if n >? 0 then read_n_lines_from_file n
        else
          Ok (py "The file was skipped. The file was larger than "
              ++ str_of_Z (LARGE_SIZE_FILE cfg)
              ++ py "MB and it was not specified how many lines to read from it.")
    | None => read_line_by_line
    end
  else
    except_UnicodeDecodeError
      (if line_by_line then read_line_by_line else read_all)
      (py "Not a text file").

End ReadFile.

(* ================================================================== *)
(** ** Temporary files *)

Definition cr : char := 13%N.

(** The size of a string written in UTF-8. *)
Definition utf8_len (c : char) : Z :=
  if (c <? 128)%N then 1
  else if (c <? 2048)%N then 2
  else if (c <? 65536)%N then 3
  else 4.

Definition encoded_size (s : str) : Z :=
  fold_right (fun c n => utf8_len c + n) 0 s.

(** Reading in text mode turns ["\r\n"] and ["\r"] into ["\n"]. *)
Fixpoint universal_newlines (s : str) : str :=
  match s with
  | [] => []
  | c :: s' =>
      if N.eqb c cr then
        nl :: match s' with
              | d :: s'' =>
                  if N.eqb d nl then universal_newlines s''
                  else universal_newlines s'
              | [] => []
              end
      else c :: universal_newlines s'
  end.

(** The lines of a text, each with its ["\n"]. *)
Fixpoint lines_of (s : str) : list str :=
  match s with
  | [] => []
  | c :: s' =>
      if N.eqb c nl then [c] :: lines_of s'
      else match lines_of s' with
           | l :: ls => (c :: l) :: ls
           | [] => [[c]]
           end
  end.

(** The file that [tmp.write(content); tmp.flush()] leaves. *)
Definition written_file (content : str) : file := {|
  st_size := encoded_size content;
  can_read := true;
  text := fold_right Line Eof (lines_of (universal_newlines content))
|}.

(* ================================================================== *)
(** ** [inspect_archive] *)

Definition is_some {A} (o : option A) : bool :=
  match o with Some _ => true | None => false end.

(** [zipfile.is_zipfile]: false when the file cannot be opened. *)
Definition is_zipfile (st : fs) (path : str) : bool :=
  match disk st path with
  | Some d => can_read (as_file d) && is_some (as_zip d)
  | None => false
  end.

(** [tarfile.is_tarfile]: only [TarError] is turned into [False]. *)
Definition is_tarfile (st : fs) (path : str) : result bool :=
  match disk st path with
  | Some d =>
      if can_read (as_file d) then Ok (is_some (as_tar d))
      else Raise permission_denied
  | None => Raise no_such_file
  end.

Definition inspect_archive (st : fs) (path : str)
  : result (option archive_type) :=
  if is_zipfile st path then Ok (Some Zip)
  else
    match is_tarfile st path with
    | Raise e => Raise e
    | Ok true => Ok (Some Tar)
    | Ok false =>
        if endswith (py ".gz") path then Ok (Some Gz)
        else if endswith (py ".bz2") path then Ok (Some Bz2)
        else if endswith (py ".xz") path then Ok (Some Xz)
        else Ok None
    end.

(** [info["type"]]. *)
Definition type_name (t : archive_type) : str :=
  match t with
  | Zip => py "zip"
  | Tar => py "tar"
  | Gz => py "gz"
  | Bz2 => py "bz2"
  | Xz => py "xz"
  end.

(* ================================================================== *)
(** ** [read_archive] *)

(** What opening an archive gives. *)
Definition on_disk {A} (st : fs) (path : str) (view : disk_entry -> result A)
  : result A :=
  match disk st path with
  | Some d => if can_read (as_file d) then view d else Raise permission_denied
  | None => Raise no_such_file
  end.

Definition ZipFile (st : fs) (path : str) : result zip_archive :=
  on_disk st path (fun d =>
    match as_zip d with
    | Some z => z
    | None => Raise (Exn OtherException (py "File is not a zip file"))
    end).

Definition tarfile_getmembers (st : fs) (path : str)
  : result (list tar_member) :=
  on_disk st path (fun d =>
    match as_tar d with
    | Some t => t
    | None => Raise (Exn OtherException (py "file could not be opened successfully"))
    end).

Definition opener_read (t : archive_type) (st : fs) (path : str)
  : result str :=
  on_disk st path (fun d => as_stream d t).

(** The state of [read_archive]: the file system and the list
    [text_parts], which is appended to in place. *)
Record reader := {
  r_fs : fs;
  text_parts : list str
}.

(** [text_parts.append(part)]. *)
Definition append (part : str) : prog reader unit :=
  fun r => (Ok tt, {| r_fs := r_fs r; text_parts := text_parts r ++ [part] |}).

(** [tempfile.NamedTemporaryFile("w+", delete=False)] followed by
    [tmp.write(content); tmp.flush()]: a new file, whose name is returned. *)
Definition NamedTemporaryFile (content : str) : prog reader file_name :=
  fun r =>
    (Ok (TempName (List.length (temps (r_fs r)))),
     {| r_fs := {| disk := disk (r_fs r);
                   temps := temps (r_fs r) ++ [written_file content] |};
        text_parts := text_parts r |}).

(** [" → "]. *)
Definition arrow : str := [32; 8594; 32]%N.

Section ReadArchive.

Variable cfg : config.

(** The temporary file is read back and its block appended:
    [text_parts.append(f"\n## {label}\n{read_file(tmp.name)}\n")]. *)
Definition append_member (label content : str) : prog reader unit :=
  (tmp <- NamedTemporaryFile content ;;
   body <- lift (fun r => read_file cfg (r_fs r) tmp false) ;;
   append ([nl] ++ py "## " ++ label ++ [nl] ++ body ++ [nl]))%prog.

(** The body of the loop over [z.namelist()]. *)
Definition zip_member (path : str) (entry : str * result str)
  : prog reader unit :=
  let '(name, extracted) := entry in
  try_except
    (content <- lift (fun _ => extracted) ;;
     append_member (path ++ arrow ++ name) content)%prog
    (fun _ =>
       append ([nl] ++ py "## " ++ path ++ arrow ++ name ++ [nl]
               ++ py "[Unreadable file]" ++ [nl])).

(** The body of the loop over [tfile.getmembers()]. *)
Definition tar_member_step (path : str) (member : tar_member)
  : prog reader unit :=
  if tm_isfile member then
    (f <- lift (fun _ => tm_extract member) ;;
     match f with
     | Some content => append_member (path ++ arrow ++ tm_name member) content
     | None => ret tt
     end)%prog
  else ret tt.

(** The [try] block of [read_archive]. *)
Definition extract (t : archive_type) (path : str) : prog reader unit :=
  match t with
  | Zip =>
      (z <- lift (fun r => ZipFile (r_fs r) path) ;;
       for_each z (zip_member path))%prog
  | Tar =>
      (members <- lift (fun r => tarfile_getmembers (r_fs r) path) ;;
       for_each members (tar_member_step path))%prog
  | Gz | Bz2 | Xz =>
      (content <- lift (fun r => opener_read t (r_fs r) path) ;;
       append_member (path ++ py " (decompressed)") content)%prog
  end.

(** [f"## Archive content of {path} ({t})"]. *)
Definition archive_header (t : archive_type) (path : str) : str :=
  py "## Archive content of " ++ path ++ py " (" ++ type_name t ++ py ")".

Definition read_archive (path : str) : prog fs str :=
  fun st =>
    match inspect_archive st path with
    | Raise e => (Raise e, st)
    | Ok None => (Ok (py "## Unsupported archive format" ++ [nl]), st)
    | Ok (Some t) =>
        let start :=
          {| r_fs := st; text_parts := [archive_header t path] |} in
        let finish :=
          snd (try_except (extract t path)
                 (fun e => append (py "[Error reading archive: "
                                   ++ exn_msg e ++ py "]"))
                 start) in
        (Ok (join [nl] (text_parts finish)), r_fs finish)
    end.

End ReadArchive.

(* ================================================================== *)
(** ** [paths_as_tree] *)

(** The nested dictionary: the keys of a [dict] in insertion order, each
    with its subtree.  [Node []] is the empty dictionary. *)
#[local] Unset Elimination Schemes.
Inductive tree := Node (items : list (str * tree)).
#[local] Set Elimination Schemes.

Definition items_of (d : tree) : list (str * tree) :=
  match d with Node items => items end.

(** [bool(d)]: a dictionary is true when it has a key. *)
Definition bool_of_dict (d : tree) : bool :=
  match d with Node [] => false | Node (_ :: _) => true end.

(** [d.setdefault(part, {})] followed by the work [f] done on the dictionary
    it returns: an existing key keeps its place, a new one goes last. *)
Fixpoint setdefault_then (part : str) (f : tree -> tree)
  (items : list (str * tree)) : list (str * tree) :=
  match items with
  | [] => [(part, f (Node []))]
  | (name, subtree) :: items' =>
      if str_eqb name part then (name, f subtree) :: items'
      else (name, subtree) :: setdefault_then part f items'
  end.

(** [for part in parts: current = current.setdefault(part, {})]. *)
Fixpoint insert_parts (parts : list str) (current : tree) : tree :=
  match parts with
  | [] => current
  | part :: parts' =>
      Node (setdefault_then part (insert_parts parts') (items_of current))
  end.

(** The first loop of [paths_as_tree]. *)
Definition build_tree (paths : list str) : tree :=
  fold_left
    (fun tree path => insert_parts (split slash (strip_slash path)) tree)
    paths (Node []).

(** [sorted(items, key=lambda kv: kv[0])]: a stable sort on the names. *)
Section Sorted.

Variable V : Type.

Fixpoint insert_sorted (x : str * V) (l : list (str * V)) : list (str * V) :=
  match l with
  | [] => [x]
  | y :: l' =>
      if str_leb (fst x) (fst y) then x :: l else y :: insert_sorted x l'
  end.

Fixpoint sorted (l : list (str * V)) : list (str * V) :=
  match l with
  | [] => []
  | x :: l' => insert_sorted x (sorted l')
  end.

End Sorted.
Arguments insert_sorted {V} x l.
Arguments sorted {V} l.

(** [dirs_count] and [files_count]. *)
Definition counters := (Z * Z)%type.

(** What [_print_tree(subtree, prefix)] does to the counters and returns. *)
Definition printer := str -> counters -> list str * counters.

Definition corner : str := [9492; 9472; 9472; 32]%N.       (* "└── " *)
Definition tee : str := [9500; 9472; 9472; 32]%N.          (* "├── " *)
Definition blank : str := [32; 32; 32; 32]%N.              (* "    " *)
Definition bar : str := [9474; 32; 32; 32]%N.              (* "│   " *)

(** The loop [for i, (name, subtree) in enumerate(items)] of [_print_tree],
    from index [i] on; [len_items] is [len(items)].  Each item carries its
    subtree and the printer of that subtree. *)
Fixpoint print_items (len_items i : nat)
  (items : list (str * (tree * printer)))
  (prefix : str) (lines : list str) (c : counters) : list str * counters :=
  match items with
  | [] => (lines, c)
  | (name, (subtree, print_subtree)) :: items' =>
      let last := Nat.eqb i (len_items - 1) in
      let connector := if last then corner else tee in
      let is_dir := bool_of_dict subtree in
      let '(lines, c) :=
        if is_dir
        then (lines ++ [prefix ++ connector ++ name ++ [slash]],
              (fst c + 1, snd c))
        else (lines ++ [prefix ++ connector ++ name],
              (fst c, snd c + 1)) in
      let extension := if last then blank else bar in
      let '(below, c) := print_subtree (prefix ++ extension) c in
      print_items len_items (S i) items' prefix (lines ++ below) c
  end.

(** [_print_tree]: the recursive calls are prepared for every subtree, then
    the items are sorted and the loop runs over them. *)
Fixpoint _print_tree (d : tree) : printer :=
  match d with
  | Node kids =>
      let items :=
        sorted (map (fun kv : str * tree =>
                       let '(name, subtree) := kv in
                       (name, (subtree, _print_tree subtree))) kids) in
      fun prefix c => print_items (List.length items) 0 items prefix [] c
  end.

Definition paths_as_tree (paths : list str) : str :=
  let tree := build_tree paths in
  let '(lines, (dirs_count, files_count)) := _print_tree tree [] (0, 0) in
  let output_lines :=
    [py ". Files that were selected:" ++ [nl] ++ py "|"]
    ++ lines
    ++ [[nl] ++ str_of_Z dirs_count ++ py " directories, "
        ++ str_of_Z files_count ++ py " files"] in
  join [nl] output_lines.

(* ================================================================== *)
(** ** [make_text_from_files] *)

Definition fence : str := [nl] ++ py "```" ++ [nl].

Section MakeText.

Variable cfg : config.

(** The body of the loop, up to the value of [file_content]. *)
Definition file_content (file : str) : prog fs str :=
  (content_raw <- lift (fun st => read_file cfg st (Path file) false) ;;
   if str_eqb content_raw (py "Not a text file") then
     archive_info <- lift (fun st => inspect_archive st file) ;;
     match archive_info with
     | Some _ =>
         if READ_COMPRESSED_FILES cfg then
           rendered <- read_archive cfg file ;;
           ret (fence ++ rendered ++ fence)
         else ret (py "`Archive skipped`" ++ [nl])
     | None => ret (fence ++ py "Not a text file" ++ fence)
     end
   else ret (fence ++ content_raw ++ fence))%prog.

(** [for file in files: ... text += f"{file}\n{file_content}---\n\n"]. *)
Fixpoint files_loop (files : list str) (text : str) : prog fs str :=
  match files with
  | [] => ret text
  | file :: files' =>
      (content <- file_content file ;;
       files_loop files'
         (text ++ file ++ [nl] ++ content ++ py "---" ++ [nl; nl]))%prog
  end.

Definition make_text_from_files (files : list str) (description : option str)
  : prog fs str :=
  (let tree := paths_as_tree files in
   let text := py "Project structure" ++ [nl; nl] ++ tree
               ++ [nl; nl] ++ py "---" ++ [nl; nl] in
   text <- files_loop files text ;;
   match description with
   | Some d =>
       if nonempty d
       then ret (text ++ py "Description" ++ [nl; nl] ++ d ++ [nl])
       else ret text
   | None => ret text
   end)%prog.

End MakeText.

(* ================================================================== *)
(** ** Vocabulary of the statements *)

(** The contents of the entries of a zip archive that can be extracted. *)
Definition zip_extracted (z : zip_archive) : list str :=
  flat_map (fun entry : str * result str =>
              match snd entry with Ok content => [content] | Raise _ => [] end)
           z.

(** The contents of the regular members of a tar archive that are extracted
    before the first member that fails. *)
Fixpoint tar_extracted (members : list tar_member) : list str :=
  match members with
  | [] => []
  | m :: members' =>
      if tm_isfile m then
        match tm_extract m with
        | Raise _ => []
        | Ok None => tar_extracted members'
        | Ok (Some content) => content :: tar_extracted members'
        end
      else tar_extracted members'
  end.

(** What [read_file] returns for the temporary file that holds [content]
    (it never raises on such a file, see [read_file_written]). *)
Definition member_body (cfg : config) (content : str) : str :=
  match read_file cfg {| disk := fun _ => None;
                         temps := [written_file content] |}
          (TempName 0) false with
  | Ok body => body
  | Raise _ => []
  end.

(** The block that the zip loop appends for one entry. *)
Definition zip_block (cfg : config) (path : str) (entry : str * result str)
  : str :=
  match snd entry with
  | Ok content =>
      [nl] ++ py "## " ++ (path ++ arrow ++ fst entry) ++ [nl]
      ++ member_body cfg content ++ [nl]
  | Raise _ =>
      [nl] ++ py "## " ++ path ++ arrow ++ fst entry ++ [nl]
      ++ py "[Unreadable file]" ++ [nl]
  end.

(** The contents that [read_archive] extracts from a path. *)
Definition extracted (st : fs) (path : str) : list str :=
  match inspect_archive st path with
  | Ok (Some Zip) =>
      match ZipFile st path with Ok z => zip_extracted z | Raise _ => [] end
  | Ok (Some Tar) =>
      match tarfile_getmembers st path with
      | Ok members => tar_extracted members
      | Raise _ => []
      end
  | Ok (Some t) =>
      match opener_read t st path with Ok content => [content] | Raise _ => [] end
  | _ => []
  end.

(** The exception, if any, raised when an archive of type [t] is opened,
    before any of its members is looked at. *)
Definition opening_error (t : archive_type) (st : fs) (path : str)
  : option exn :=
  match t with
  | Zip => match ZipFile st path with Raise e => Some e | Ok _ => None end
  | Tar =>
      match tarfile_getmembers st path with Raise e => Some e | Ok _ => None end
  | _ => match opener_read t st path with Raise e => Some e | Ok _ => None end
  end.

(** The content of a file as the document shows it when it is written out
    as it is. *)
Definition verbatim (content : str) : str := fence ++ content ++ fence.

(** [r'] has the disk of [r], and its temporary files followed by one file
    for each of [contents]. *)
Definition grown (contents : list str) (r r' : reader) : Prop :=
  disk (r_fs r') = disk (r_fs r)
  /\ temps (r_fs r') = temps (r_fs r) ++ map written_file contents.

(** *** Vocabulary of the tree *)

(** The segments of a path: [path.strip("/").split("/")]. *)
Definition segments (path : str) : list str := split slash (strip_slash path).

(** [d[k]], if the key is there. *)
Fixpoint assoc (k : str) (items : list (str * tree)) : option tree :=
  match items with
  | [] => None
  | (name, subtree) :: items' =>
      if str_eqb name k then Some subtree else assoc k items'
  end.

(** The dictionary reached from [d] by the keys [parts], if all are there. *)
Fixpoint subtree_at (parts : list str) (d : tree) : option tree :=
  match parts with
  | [] => Some d
  | part :: parts' =>
      match assoc part (items_of d) with
      | Some subtree => subtree_at parts' subtree
      | None => None
      end
  end.

(** [parts] is the beginning of [q]. *)
Definition prefix_of (parts q : list str) : Prop :=
  exists rest, q = parts ++ rest.

(** The lexicographic order on strings, by code points. *)
Inductive lex_le : str -> str -> Prop :=
| lex_le_nil (b : str) : lex_le [] b
| lex_le_lt (x y : char) (a b : str) : (x < y)%N -> lex_le (x :: a) (y :: b)
| lex_le_eq (x : char) (a b : str) : lex_le a b -> lex_le (x :: a) (x :: b).

(** The order of two items is the order of their names. *)
Definition by_name {V} (x y : str * V) : Prop := lex_le (fst x) (fst y).

(** An item with what is printed below it. *)
Definition with_below {B} (below : tree -> B) (kv : str * tree)
  : str * (tree * B) :=
  let '(name, subtree) := kv in (name, (subtree, below subtree)).

(** The entries of a tree in the order of a depth-first walk that takes the
    children of every node in sorted order: each entry is a name with the
    dictionary of its children. *)
Fixpoint preorder (d : tree) : list (str * tree) :=
  match d with
  | Node kids =>
      flat_map (fun x : str * (tree * list (str * tree)) =>
                  (fst x, fst (snd x)) :: snd (snd x))
               (sorted (map (fun kv : str * tree =>
                               let '(name, subtree) := kv in
                               (name, (subtree, preorder subtree))) kids))
  end.

(** The number of entries of a tree that have a child, and the number of
    those that have none. *)
Fixpoint count_dirs (d : tree) : Z :=
  match d with
  | Node kids =>
      fold_right Z.add 0
        (map (fun kv : str * tree =>
                let '(_, subtree) := kv in
                (if bool_of_dict subtree then 1 else 0) + count_dirs subtree)
             kids)
  end.

Fixpoint count_files (d : tree) : Z :=
  match d with
  | Node kids =>
      fold_right Z.add 0
        (map (fun kv : str * tree =>
                let '(_, subtree) := kv in
                (if bool_of_dict subtree then 0 else 1) + count_files subtree)
             kids)
  end.

(** The counts of one item with what is below it, and the sum of a list. *)
Definition dirs_of (kv : str * tree) : Z :=
  (if bool_of_dict (snd kv) then 1 else 0) + count_dirs (snd kv).

Definition files_of (kv : str * tree) : Z :=
  (if bool_of_dict (snd kv) then 0 else 1) + count_files (snd kv).

Definition total (l : list Z) : Z := fold_right Z.add 0 l.

(** Every name in the tree satisfies [p]. *)
Fixpoint names_ok (p : str -> bool) (d : tree) : bool :=
  match d with
  | Node kids =>
      forallb (fun kv : str * tree =>
                 let '(name, subtree) := kv in p name && names_ok p subtree)
              kids
  end.

Definition no_slash (name : str) : bool := negb (existsb (N.eqb slash) name).

(** A line of the listing shows an entry: some indentation and connector
    that ends in a space, the name, and ["/"] when the entry has a child. *)
Definition shows (line : str) (entry : str * tree) : Prop :=
  exists indent,
    line = indent ++ [32%N] ++ fst entry
           ++ (if bool_of_dict (snd entry) then [slash] else []).

(** The tree holds the keys [parts], one under the other. *)
Definition present (parts : list str) (d : tree) : Prop :=
  subtree_at parts d <> None.

(** What is to be shown of the printer of one tree. *)
Definition prints_well (d : tree) : Prop :=
  forall prefix c,
    Forall2 shows (fst (_print_tree d prefix c)) (preorder d)
    /\ snd (_print_tree d prefix c)
       = (fst c + count_dirs d, snd c + count_files d).

(** Induction on trees: a property holds of a dictionary when it holds of
    all the dictionaries stored in it. *)
Section TreeInduction.

Variable P : tree -> Prop.
Hypothesis step :
  forall kids, Forall (fun kv : str * tree => P (snd kv)) kids -> P (Node kids).

Fixpoint tree_induction (d : tree) : P d :=
  match d with
  | Node kids =>
      step kids
        ((fix all (l : list (str * tree))
            : Forall (fun kv : str * tree => P (snd kv)) l :=
            match l with
            | [] => Forall_nil _
            | kv :: l' =>
                Forall_cons kv
                  (let '(_, subtree) as kv0 := kv return P (snd kv0) in
                   tree_induction subtree)
                  (all l')
            end) kids)
  end.

End TreeInduction.

(* ================================================================== *)
(** ** Example file systems *)

Module Examples.

(** A path that is no archive: the three openers reject it. *)
Definition plain (f : file) : disk_entry := {|
  as_file := f;
  as_zip := None;
  as_tar := None;
  as_stream := fun _ => Raise (Exn OtherException (py "Not a compressed file"))
|}.

(** A directory with one path in it, and no temporary file yet. *)
Definition one_path (p : str) (d : disk_entry) : fs := {|
  disk := fun q => if str_eqb q p then Some d else None;
  temps := []
|}.

Definition MB : Z := 1024 * 1024.

(** A file of one byte more than 10 MB that does not start with text. *)
Definition big_binary : fs :=
  one_path (py "big.bin")
    (plain {| st_size := 10 * MB + 1; can_read := true;
              text := Undecodable (py "invalid start byte") |}).

(** The same bytes cut to 10 MB. *)
Definition binary_at_threshold : fs :=
  one_path (py "big.bin")
    (plain {| st_size := 10 * MB; can_read := true;
              text := Undecodable (py "invalid start byte") |}).

(** A small text file with white space around its lines. *)
Definition indented_lines : text_stream :=
  Line (py "  a  " ++ [nl]) (Line ([9%N] ++ py "b" ++ [nl]) Eof).

Definition indented : fs :=
  one_path (py "x.txt")
    (plain {| st_size := 9; can_read := true; text := indented_lines |}).

(** A text file of three lines and more than 10 MB. *)
Definition three_lines : text_stream :=
  Line (py "one " ++ [nl]) (Line (py " two" ++ [nl]) (Line (py "three") Eof)).

Definition big_text : file :=
  {| st_size := 10 * MB + 1; can_read := true; text := three_lines |}.

Definition big_text_fs : fs := one_path (py "log.txt") (plain big_text).

Definition with_max_lines (m : option Z) : config := {|
  READ_COMPRESSED_FILES := true;
  LARGE_SIZE_FILE := 10;
  MAX_LINES_FOR_LARGE_FILE := m
|}.

(** A binary file that is an archive, as the libraries see it. *)
Definition binary : file :=
  {| st_size := 2048; can_read := true;
     text := Undecodable (py "invalid start byte") |}.

(** A zip archive whose first entry fails its checksum when it is read. *)
Definition bad_checksum : exn :=
  Exn OtherException (py "Bad CRC-32 for file 'a.bin'").

Definition zip_entries : zip_archive :=
  [(py "a.bin", Raise bad_checksum); (py "b.txt", Ok (py "hello"))].

Definition zip_fs : fs :=
  one_path (py "pack.zip")
    {| as_file := binary; as_zip := Some (Ok zip_entries); as_tar := None;
       as_stream := fun _ => Raise (Exn OtherException (py "Not a compressed file")) |}.

(** The same directory after an earlier run has left a temporary file. *)
Definition zip_fs_later : fs :=
  {| disk := disk zip_fs; temps := [written_file (py "earlier")] |}.

(** A tar archive with the same two members; the data of the first cannot
    be read from the disk. *)
Definition read_error : exn :=
  Exn OtherException (py "[Errno 5] Input/output error").

Definition tar_members : list tar_member :=
  [{| tm_name := py "a.bin"; tm_isfile := true; tm_extract := Raise read_error |};
   {| tm_name := py "b.txt"; tm_isfile := true;
      tm_extract := Ok (Some (py "hello")) |}].

Definition tar_fs : fs :=
  one_path (py "pack.tar")
    {| as_file := binary; as_zip := None; as_tar := Some (Ok tar_members);
       as_stream := fun _ => Raise (Exn OtherException (py "Not a compressed file")) |}.

(** A zip archive with a valid signature and a truncated body, next to a
    text file. *)
Definition truncated : exn :=
  Exn OtherException (py "Bad magic number for central directory").

Definition corrupt_fs : fs := {|
  disk := fun q =>
    if str_eqb q (py "bad.zip") then
      Some {| as_file := binary; as_zip := Some (Raise truncated);
              as_tar := None;
              as_stream := fun _ => Raise (Exn OtherException (py "Not a compressed file")) |}
    else if str_eqb q (py "a.txt") then
      Some (plain {| st_size := 2; can_read := true;
                     text := Line (py "hi") Eof |})
    else None;
  temps := []
|}.

(** A text file that holds the words of the sentinel and nothing else; the
    same file under a name that ends in [.gz]. *)
Definition sentinel_text : file :=
  {| st_size := 15; can_read := true;
     text := Line (py "Not a text file") Eof |}.

Definition sentinel_fs : fs := one_path (py "note.txt") (plain sentinel_text).

Definition sentinel_gz_fs : fs := one_path (py "note.gz") (plain sentinel_text).

End Examples.

(* ================================================================== *)
(** ** [count_lines_in_file] *)

(** [sum(1 for _ in file)]. *)
Fixpoint count_each_line (file : text_stream) (n : Z) : result Z :=
  match file with
  | Eof => Ok n
  | Line _ rest => count_each_line rest (n + 1)
  | Undecodable msg => Raise (Exn UnicodeDecodeError msg)
  end.

Definition count_lines_in_file (st : fs) (file_path : file_name) : result Z :=
  except_UnicodeDecodeError
    (match open_text st file_path with
     | Raise e => Raise e
     | Ok file => count_each_line file 0
     end)
    0.

(* ================================================================== *)
(** ** [main] *)

Definition comma : char := 44%N.

(** [os.path.basename]: what follows the last ["/"]. *)
Definition basename (p : str) : str := last (split slash p) [].

(** [os.path.join(a, b)]. *)
Definition path_join (a b : str) : str :=
  if startswith [slash] b then b
  else if negb (nonempty a) || endswith [slash] a then a ++ b
  else a ++ [slash] ++ b.



(** What [os.walk(args.dirname)] yields: for every directory its path, its
    subdirectories and its files. *)
Definition walk_result := list (str * list str * list str).

(** The loops that fill [file_list]. *)
Definition collect_files (script_name : str) (walk : walk_result) : list str :=
  flat_map (fun step : str * list str * list str =>
              let '(root, _, files) := step in
              map (path_join root)
                  (filter (fun file => negb (str_eqb script_name file)) files))
           walk.

(** [ignores_apply(args.ignore.split(","), file_list)] when an ignore list
    was given and is not empty, else a copy of [file_list]. *)
Definition filter_files (ignore : option str) (file_list : list str)
  : list str :=
  match ignore with
  | Some i =>
      if nonempty i then ignores_apply (split comma i) file_list
      else file_list
  | None => file_list
  end.



Section Main.

Variable cfg : config.


End Main.

(* ================================================================== *)
(** ** More vocabulary *)

(** The blocks that the tar loop appends, up to the first member that
    fails, and the exception of that member. *)
Fixpoint tar_blocks (cfg : config) (path : str) (members : list tar_member)
  : list str :=
  match members with
  | [] => []
  | m :: members' =>
      if tm_isfile m then
        match tm_extract m with
        | Raise _ => []
        | Ok None => tar_blocks cfg path members'
        | Ok (Some content) =>
            ([nl] ++ py "## " ++ (path ++ arrow ++ tm_name m) ++ [nl]
             ++ member_body cfg content ++ [nl])
            :: tar_blocks cfg path members'
        end
      else tar_blocks cfg path members'
  end.

Fixpoint tar_failure (members : list tar_member) : option exn :=
  match members with
  | [] => None
  | m :: members' =>
      if tm_isfile m then
        match tm_extract m with
        | Raise e => Some e
        | Ok _ => tar_failure members'
        end
      else tar_failure members'
  end.

(** The line that stands for an exception of the extraction. *)
Definition error_line (e : exn) : str :=
  py "[Error reading archive: " ++ exn_msg e ++ py "]".

(** Everything [read_archive] appends after the header, for an archive of
    type [t]. *)
Definition archive_parts (cfg : config) (st : fs) (path : str)
  (t : archive_type) : list str :=
  match t with
  | Zip =>
      match ZipFile st path with
      | Ok z => map (zip_block cfg path) z
      | Raise e => [error_line e]
      end
  | Tar =>
      match tarfile_getmembers st path with
      | Ok members =>
          tar_blocks cfg path members
          ++ match tar_failure members with
             | Some e => [error_line e]
             | None => []
             end
      | Raise e => [error_line e]
      end
  | _ =>
      match opener_read t st path with
      | Ok content =>
          [[nl] ++ py "## " ++ (path ++ py " (decompressed)") ++ [nl]
           ++ member_body cfg content ++ [nl]]
      | Raise e => [error_line e]
      end
  end.

(** The file system after temporary files for [contents] were added. *)
Definition with_temps (st : fs) (contents : list str) : fs :=
  {| disk := disk st; temps := temps st ++ map written_file contents |}.

(** The reader after [blocks] were appended and temporary files for
    [contents] were added. *)
Definition reader_after (r : reader) (blocks contents : list str) : reader :=
  {| r_fs := with_temps (r_fs r) contents;
     text_parts := text_parts r ++ blocks |}.

(** No dictionary of the tree has a key twice. *)
Fixpoint unique_names (d : tree) : Prop :=
  match d with
  | Node kids =>
      NoDup (map fst kids)
      /\ fold_right (fun (kv : str * tree) rest =>
                       let '(_, subtree) := kv in unique_names subtree /\ rest)
                    True kids
  end.

(** The tree with every dictionary in sorted order. *)
Fixpoint canonical (d : tree) : tree :=
  match d with
  | Node kids =>
      Node (sorted (map (fun kv : str * tree =>
                           let '(name, subtree) := kv in
                           (name, canonical subtree)) kids))
  end.

(** An item with its subtree put in sorted order. *)
Definition canonical_item (kv : str * tree) : str * tree :=
  (fst kv, canonical (snd kv)).

(** The block of one file in the document. *)
Definition file_block (file content : str) : str :=
  file ++ [nl] ++ content ++ py "---" ++ [nl; nl].

(** The head of the document. *)
Definition document_head (files : list str) : str :=
  py "Project structure" ++ [nl; nl] ++ paths_as_tree files
  ++ [nl; nl] ++ py "---" ++ [nl; nl].

(** The end of the document. *)
Definition description_part (description : option str) : str :=
  match description with
  | Some d =>
      if nonempty d then py "Description" ++ [nl; nl] ++ d ++ [nl] else []
  | None => []
  end.



(** Example invocations. *)
Module Runs.

(** A directory with the script itself, a source file and a test. *)
Definition project_walk : walk_result :=
  [(py "proj", [py "src"], [py "dir2txt.py"; py "README"]);
   (py "proj/src", [], [py "main.go"; py "test_util.go"; py "dir2txt.py"])].



(** A gzip file that holds one line of text. *)
Definition gz_fs : fs :=
  Examples.one_path (py "notes.gz")
    {| as_file := Examples.binary; as_zip := None; as_tar := None;
       as_stream := fun t =>
         match t with
         | Gz => Ok (py "hello" ++ [nl])
         | _ => Raise (Exn OtherException (py "Not a compressed file"))
         end |}.

End Runs.

(* ================================================================== *)
(** ** Facts about strings *)

Lemma str_eqb_eq (a b : str) : str_eqb a b = true <-> a = b.
Proof.
  revert b; induction a as [|x a IH]; intros [|y b]; simpl;
    try (split; [discriminate | congruence]); try tauto.
  rewrite andb_true_iff, N.eqb_eq, IH.
  split; [intros [-> ->]; reflexivity | intros H; inversion H; auto].
Qed.

Lemma startswith_spec (ex t : str) :
  startswith ex t = true <-> exists post, t = ex ++ post.
Proof.
  revert t; induction ex as [|x ex IH]; intros t; simpl.
  - split; [intros _; exists t; reflexivity | reflexivity].
  - destruct t as [|y t].
    + split; [discriminate | intros [post H]; discriminate].
    + rewrite andb_true_iff, N.eqb_eq, IH. split.
      * intros [-> [post ->]]. exists post. reflexivity.
      * intros [post H]. inversion H; subst. split; [reflexivity|].
        exists post. reflexivity.
Qed.

Lemma contains_spec (ex t : str) :
  contains ex t = true <-> substring ex t.
Proof.
  unfold substring. induction t as [|y t IH]; simpl.
  - rewrite orb_false_r, startswith_spec. split.
    + intros [post H]. exists [], post. exact H.
    + intros [pre [post H]]. destruct pre as [|p pre]; [|discriminate].
      exists post. exact H.
  - rewrite orb_true_iff, startswith_spec, IH. split.
    + intros [[post H] | [pre [post H]]].
      * exists [], post. exact H.
      * exists (y :: pre), post. simpl. now rewrite H.
    + intros [pre [post H]]. destruct pre as [|p pre].
      * left. exists post. exact H.
      * right. inversion H; subst. exists pre, post. reflexivity.
Qed.

(* ================================================================== *)
(** ** Theorems *)

(** C8. [ignores_apply] keeps a target exactly when no ignore string occurs
    in it as a plain substring: membership in the result is membership in the
    targets together with the absence of every ignore substring; the result
    is computed target by target, in order (it distributes over
    concatenation and maps a single target to itself or to nothing); and
    with the ignore string "test" the list ["src/test_util.go",
    "src/main.go"] filters to exactly ["src/main.go"]. *)
Theorem ignores_apply_keeps_iff_no_substring :
  (forall ignores targets t,
      In t (ignores_apply ignores targets) <->
      In t targets /\ forall ex, In ex ignores -> ~ substring ex t)
  /\ (forall ignores ts1 ts2,
         ignores_apply ignores (ts1 ++ ts2) =
         ignores_apply ignores ts1 ++ ignores_apply ignores ts2)
  /\ (forall ignores t,
         ((forall ex, In ex ignores -> ~ substring ex t) ->
          ignores_apply ignores [t] = [t])
         /\ ((exists ex, In ex ignores /\ substring ex t) ->
             ignores_apply ignores [t] = []))
  /\ ignores_apply [py "test"] [py "src/test_util.go"; py "src/main.go"]
     = [py "src/main.go"].
Proof.
  assert (keep : forall ignores t,
             negb (existsb (fun ex => contains ex t) ignores) = true <->
             forall ex, In ex ignores -> ~ substring ex t).
  { intros ignores t. rewrite negb_true_iff. split.
    - intros H ex Hin Hsub.
      assert (E : existsb (fun ex => contains ex t) ignores = true).
      { apply existsb_exists. exists ex. split; [exact Hin|].
        now apply contains_spec. }
      congruence.
    - intros H. destruct (existsb _ ignores) eqn:E; [|reflexivity].
      apply existsb_exists in E. destruct E as [ex [Hin Hc]].
      apply contains_spec in Hc. destruct (H ex Hin Hc). }
  split; [|split; [|split]].
  - intros ignores targets t. unfold ignores_apply.
    rewrite filter_In, keep. reflexivity.
  - intros. unfold ignores_apply. apply filter_app.
  - intros ignores t. unfold ignores_apply. simpl. split.
    + intros H. now rewrite (proj2 (keep ignores t) H).
    + intros [ex [Hin Hsub]].
      destruct (negb _) eqn:E; [|reflexivity].
      destruct (proj1 (keep ignores t) E ex Hin Hsub).
  - reflexivity.
Qed.

(** With the ignore string "test", [src/main.go] is kept and
    [src/test_util.go] is not. *)
Lemma ignores_apply_keeps_iff_no_substring_witness :
  ignores_apply [py "test"] [py "src/main.go"] = [py "src/main.go"]
  /\ ~ In (py "src/test_util.go")
         (ignores_apply [py "test"] [py "src/test_util.go"; py "src/main.go"]).
Proof.
  destruct ignores_apply_keeps_iff_no_substring as [Hin [_ [Hone _]]].
  split.
  - apply (proj1 (Hone [py "test"] (py "src/main.go"))).
    intros ex [<-|[]] H. apply contains_spec in H.
    vm_compute in H. discriminate.
  - intros H. apply Hin in H. destruct H as [_ H].
    apply (H (py "test")); [now left|].
    apply contains_spec. reflexivity.
Defined.

(* ------------------------------------------------------------------ *)
(** *** Stripping *)

Lemma lstrip_by_spec (p : char -> bool) (s : str) :
  exists ws, s = ws ++ lstrip_by p s /\ forallb p ws = true
             /\ match lstrip_by p s with
                | c :: _ => p c = false
                | [] => True
                end.
Proof.
  induction s as [|c s [ws [E [W H]]]]; simpl.
  - exists []. auto.
  - destruct (p c) eqn:Pc.
    + exists (c :: ws). simpl. rewrite Pc, W. split; [now f_equal | auto].
    + exists []. simpl. auto.
Qed.

Lemma rstrip_by_spec (p : char -> bool) (s : str) :
  exists ws, s = rstrip_by p s ++ ws /\ forallb p ws = true
             /\ match rev (rstrip_by p s) with
                | c :: _ => p c = false
                | [] => True
                end.
Proof.
  unfold rstrip_by. destruct (lstrip_by_spec p (rev s)) as [ws [E [W H]]].
  exists (rev ws). rewrite rev_involutive. repeat split.
  - rewrite <- rev_app_distr, <- E. symmetry. apply rev_involutive.
  - rewrite forallb_forall in *. intros c Hc. apply W. now apply in_rev.
  - exact H.
Qed.

(** [strip_by p s] is [s] without the longest prefix and the longest suffix
    made of characters of [p]. *)
Lemma strip_by_spec (p : char -> bool) (s : str) :
  exists ws1 ws2,
    s = ws1 ++ strip_by p s ++ ws2
    /\ forallb p ws1 = true /\ forallb p ws2 = true
    /\ match strip_by p s with
       | c :: _ => p c = false
       | [] => True
       end
    /\ match rev (strip_by p s) with
       | c :: _ => p c = false
       | [] => True
       end.
Proof.
  unfold strip_by.
  destruct (lstrip_by_spec p s) as [ws1 [E1 [W1 H1]]].
  destruct (rstrip_by_spec p (lstrip_by p s)) as [ws2 [E2 [W2 H2]]].
  exists ws1, ws2. repeat split; auto.
  - rewrite <- E2. exact E1.
  - (* the first character survives the right strip or nothing does *)
    destruct (rstrip_by p (lstrip_by p s)) as [|c r] eqn:R; [exact I|].
    rewrite E2 in H1. simpl in H1. exact H1.
Qed.

(* ------------------------------------------------------------------ *)
(** *** Reading lines *)

Lemma strip_each_line_clean (file : text_stream) (lines : list str) :
  ends_cleanly file = true ->
  strip_each_line file lines = Ok (lines ++ map strip (good_lines file)).
Proof.
  revert lines. induction file as [|line rest IH|msg]; simpl; intros lines H.
  - now rewrite app_nil_r.
  - rewrite (IH _ H), <- app_assoc. reflexivity.
  - discriminate.
Qed.

Lemma strip_each_line_broken (file : text_stream) (lines : list str) :
  ends_cleanly file = false ->
  exists msg, strip_each_line file lines = Raise (Exn UnicodeDecodeError msg).
Proof.
  revert lines. induction file as [|line rest IH|msg]; simpl; intros lines H.
  - discriminate.
  - apply IH. exact H.
  - exists msg. reflexivity.
Qed.

Lemma read_broken (file : text_stream) :
  ends_cleanly file = false ->
  exists msg, read file = Raise (Exn UnicodeDecodeError msg).
Proof.
  induction file as [|line rest IH|msg]; simpl; intros H.
  - discriminate.
  - destruct (IH H) as [msg ->]. exists msg. reflexivity.
  - exists msg. reflexivity.
Qed.

Lemma read_clean (file : text_stream) :
  ends_cleanly file = true -> read file = Ok (List.concat (good_lines file)).
Proof.
  induction file as [|line rest IH|msg]; simpl; intros H.
  - reflexivity.
  - now rewrite (IH H).
  - discriminate.
Qed.

Lemma strip_n_lines_spec (count : nat) (file : text_stream) (lines : list str) :
  stream_ok file = true ->
  (count <= List.length (good_lines file))%nat \/ ends_cleanly file = true ->
  strip_n_lines count file lines
  = Ok (lines ++ map strip (firstn count (good_lines file))).
Proof.
  revert file lines. induction count as [|count IH]; intros file lines Hok H.
  - simpl. now rewrite app_nil_r.
  - destruct file as [|line rest|msg]; simpl.
    + now rewrite app_nil_r.
    + unfold stream_ok in Hok. simpl in Hok.
      apply andb_true_iff in Hok. destruct Hok as [Hl Hok].
      rewrite Hl, IH, <- app_assoc; [reflexivity | exact Hok |].
      simpl in H. destruct H as [H|H]; [left; lia | right; exact H].
    + simpl in H. destruct H as [H|H]; [lia | discriminate].
Qed.

Lemma file_is_large_iff (st : fs) (name : file_name) (threshold_mb : Z) :
  file_is_large st name threshold_mb = true <->
  exists f, lookup st name = Some f /\ st_size f > threshold_mb * 1024 * 1024.
Proof.
  unfold file_is_large, path_exists, getsize.
  destruct (lookup st name) as [f|].
  - destruct (st_size f >? threshold_mb * 1024 * 1024) eqn:E.
    + split; [|reflexivity]. intros _. exists f. split; [reflexivity|].
      apply Z.gtb_lt in E. lia.
    + split; [discriminate|]. intros [f' [Hf Hs]]. inversion Hf; subst.
      rewrite Z.gtb_ltb in E. apply Z.ltb_ge in E. lia.
  - split; [discriminate|]. intros [f [Hf _]]. discriminate.
Qed.

(** C4. The test of [file_is_large] is a strict comparison with the threshold
    in megabytes: an existing file is large exactly when its size is greater
    than [threshold_mb * 1024 * 1024] bytes; at exactly that size it is not
    large, and one byte above it is. *)
Theorem file_is_large_strict
  (st : fs) (name : file_name) (f : file) (threshold_mb : Z)
  (Hf : lookup st name = Some f) :
  (file_is_large st name threshold_mb = true <->
   st_size f > threshold_mb * 1024 * 1024)
  /\ (st_size f = threshold_mb * 1024 * 1024 ->
      file_is_large st name threshold_mb = false)
  /\ (st_size f = threshold_mb * 1024 * 1024 + 1 ->
      file_is_large st name threshold_mb = true).
Proof.
  assert (iff : file_is_large st name threshold_mb = true <->
                st_size f > threshold_mb * 1024 * 1024).
  { rewrite file_is_large_iff. split.
    - intros [f' [Hf' H]]. congruence.
    - intros H. exists f. auto. }
  split; [exact iff|]. split; intros H.
  - apply not_true_is_false. intros E. apply iff in E. lia.
  - apply iff. lia.
Qed.

(** The file of exactly 10 MB is not large, the one of 10 MB and a byte is. *)
Lemma file_is_large_strict_witness :
  file_is_large Examples.binary_at_threshold (Path (py "big.bin")) 10 = false
  /\ file_is_large Examples.big_binary (Path (py "big.bin")) 10 = true.
Proof.
  split.
  - apply (file_is_large_strict Examples.binary_at_threshold
             (Path (py "big.bin")) _ 10 eq_refl).
    reflexivity.
  - apply (file_is_large_strict Examples.big_binary
             (Path (py "big.bin")) _ 10 eq_refl).
    reflexivity.
Defined.

(** Where the conversion of decoding failures is in place: a file that is
    not large and cannot be decoded gives the sentinel, in both modes. *)
Lemma read_file_small_undecodable
  (cfg : config) (st : fs) (name : file_name) (f : file) (line_by_line : bool) :
  lookup st name = Some f -> can_read f = true ->
  file_is_large st name (LARGE_SIZE_FILE cfg) = false ->
  ends_cleanly (text f) = false ->
  read_file cfg st name line_by_line = Ok (py "Not a text file").
Proof.
  intros Hf Hr Hsmall Hbad. unfold read_file. rewrite Hsmall.
  unfold read_line_by_line, read_all, open_text. rewrite Hf, Hr.
  destruct line_by_line.
  - destruct (strip_each_line_broken (text f) [] Hbad) as [msg ->].
    reflexivity.
  - destruct (read_broken (text f) Hbad) as [msg ->]. reflexivity.
Qed.

Lemma strip_n_lines_broken (count : nat) (file : text_stream)
  (lines : list str) :
  stream_ok file = true -> ends_cleanly file = false ->
  (List.length (good_lines file) < count)%nat ->
  exists msg, strip_n_lines count file lines = Raise (Exn UnicodeDecodeError msg).
Proof.
  revert file lines. induction count as [|count IH]; intros file lines Hok Hbad Hn.
  - lia.
  - destruct file as [|line rest|msg]; simpl in *.
    + discriminate.
    + unfold stream_ok in Hok. simpl in Hok.
      apply andb_true_iff in Hok. destruct Hok as [Hl Hok].
      rewrite Hl. apply IH; [exact Hok | exact Hbad | lia].
    + exists msg. reflexivity.
Qed.

(** Where the conversion is missing: on a large file, a decoding failure
    among the lines that are read leaves [read_file] as the exception. *)
Lemma read_file_large_undecodable
  (cfg : config) (st : fs) (name : file_name) (f : file) (line_by_line : bool) :
  lookup st name = Some f -> can_read f = true ->
  file_is_large st name (LARGE_SIZE_FILE cfg) = true ->
  stream_ok (text f) = true -> ends_cleanly (text f) = false ->
  match MAX_LINES_FOR_LARGE_FILE cfg with
  | Some n => 0 < n /\ (List.length (good_lines (text f)) < Z.to_nat n)%nat
  | None => True
  end ->
  exists msg,
    read_file cfg st name line_by_line = Raise (Exn UnicodeDecodeError msg).
Proof.
  intros Hf Hr Hlarge Hok Hbad Hmax. unfold read_file. rewrite Hlarge.
  destruct (MAX_LINES_FOR_LARGE_FILE cfg) as [n|].
  - destruct Hmax as [Hn Hlen].
    destruct (Z.eqb_spec n 0) as [->|_]; [lia|].
    destruct (Z.gtb_spec n 0) as [_|Hle]; [|lia].
    unfold read_n_lines_from_file, open_text. rewrite Hf, Hr.
    destruct (strip_n_lines_broken (Z.to_nat n) (text f) [] Hok Hbad Hlen)
      as [msg ->].
    exists msg. reflexivity.
  - unfold read_line_by_line, open_text. rewrite Hf, Hr.
    destruct (strip_each_line_broken (text f) [] Hbad) as [msg ->].
    exists msg. reflexivity.
Qed.

(** C2. With the constants of the source, a file of 10 MB and one byte whose
    first bytes are not text makes [read_file] raise [UnicodeDecodeError]:
    the large-file branches run before the [try] that converts decoding
    failures.  The same content at exactly 10 MB takes the guarded path and
    gives the sentinel. *)
Theorem read_file_large_undecodable_raises :
  read_file shipped Examples.big_binary (Path (py "big.bin")) false
  = Raise (Exn UnicodeDecodeError (py "invalid start byte"))
  /\ read_file shipped Examples.binary_at_threshold (Path (py "big.bin")) false
     = Ok (py "Not a text file").
Proof. split; reflexivity. Qed.

(** C5. For a file above the threshold, [read_file] follows the policy of
    [MAX_LINES_FOR_LARGE_FILE]: with 0 it returns the fixed placeholder,
    whatever the file holds; with a positive [n] it returns the first [n]
    lines of the file, each stripped, joined by newlines and followed by the
    footer that names [n]; with [None] it returns all the lines of the file,
    each stripped, joined by newlines.  The last two read the file, so they
    are stated for a file that can be opened and whose lines (the first [n],
    or all of them) decode. *)
Theorem read_file_large_policy
  (st : fs) (name : file_name) (f : file) (mb : Z) (rc line_by_line : bool)
  (Hf : lookup st name = Some f)
  (Hlarge : st_size f > mb * 1024 * 1024) :
  let cfg m := {| READ_COMPRESSED_FILES := rc; LARGE_SIZE_FILE := mb;
                  MAX_LINES_FOR_LARGE_FILE := m |} in
  read_file (cfg (Some 0)) st name line_by_line
  = Ok (py "The file could not be read." ++ [nl])
  /\ (forall n,
         0 < n -> can_read f = true -> stream_ok (text f) = true ->
         (Z.to_nat n <= List.length (good_lines (text f)))%nat
         \/ ends_cleanly (text f) = true ->
         read_file (cfg (Some n)) st name line_by_line
         = Ok (join [nl] (map strip (firstn (Z.to_nat n) (good_lines (text f))))
               ++ [nl] ++ py "..." ++ [nl] ++ py "There are only "
               ++ str_of_Z n ++ py " lines of the file."))
  /\ (can_read f = true -> ends_cleanly (text f) = true ->
      read_file (cfg None) st name line_by_line
      = Ok (join [nl] (map strip (good_lines (text f))))).
Proof.
  intros cfg.
  assert (L : file_is_large st name mb = true).
  { apply file_is_large_iff. exists f. auto. }
  unfold read_file, cfg; simpl. rewrite L. split; [reflexivity|]. split.
  - intros n Hn Hr Hok Hlines.
    destruct (Z.eqb_spec n 0) as [->|_]; [lia|].
    destruct (Z.gtb_spec n 0) as [_|Hle]; [|lia].
    unfold read_n_lines_from_file, open_text. rewrite Hf, Hr.
    rewrite (strip_n_lines_spec _ _ [] Hok Hlines). reflexivity.
  - intros Hr Hclean.
    unfold read_line_by_line, open_text. rewrite Hf, Hr.
    rewrite (strip_each_line_clean _ [] Hclean). reflexivity.
Qed.

(** The three policies on a text file of three lines and more than 10 MB. *)
Lemma read_file_large_policy_witness :
  read_file (Examples.with_max_lines (Some 0)) Examples.big_text_fs
    (Path (py "log.txt")) false
  = Ok (py "The file could not be read." ++ [nl])
  /\ read_file (Examples.with_max_lines (Some 2)) Examples.big_text_fs
       (Path (py "log.txt")) false
     = Ok (py "one" ++ [nl] ++ py "two" ++ [nl] ++ py "..." ++ [nl]
           ++ py "There are only 2 lines of the file.")
  /\ read_file (Examples.with_max_lines None) Examples.big_text_fs
       (Path (py "log.txt")) false
     = Ok (py "one" ++ [nl] ++ py "two" ++ [nl] ++ py "three").
Proof.
  assert (Hlarge : st_size Examples.big_text > 10 * 1024 * 1024)
    by (vm_compute; reflexivity).
  destruct (read_file_large_policy Examples.big_text_fs
              (Path (py "log.txt")) Examples.big_text 10 true false
              eq_refl Hlarge)
    as [Hzero [Hpos Hnone]].
  split; [exact Hzero|]. split.
  - apply (Hpos 2); [lia | reflexivity | reflexivity |].
    left. vm_compute. lia.
  - apply Hnone; reflexivity.
Defined.

(** C6, as the claim has it, fails: read line by line, the lines ["  a  "]
    and ["\tb"] come back as ["a"] and ["b"], without their leading white
    space, not as ["  a"] and ["\tb"]. *)
Lemma read_line_by_line_not_rstrip :
  read_file shipped Examples.indented (Path (py "x.txt")) true
  = Ok (py "a" ++ [nl] ++ py "b")
  /\ read_file shipped Examples.indented (Path (py "x.txt")) true
     <> Ok (join [nl] (map rstrip (good_lines Examples.indented_lines))).
Proof. split; [reflexivity | vm_compute; discriminate]. Qed.

(** C6, amended. In the line-by-line mode each line is stripped of the white
    space at both of its ends ([str.strip]) and the lines are joined by
    newlines: for a file that opens and decodes, [read_line_by_line] (and
    [read_file] in that mode, when the file is not large) returns the join
    of the stripped lines, and a stripped line is the line without its
    longest prefix and its longest suffix of white space. *)
Theorem read_line_by_line_strips_both_ends
  (st : fs) (name : file_name) (f : file)
  (Hf : lookup st name = Some f)
  (Hr : can_read f = true)
  (Hclean : ends_cleanly (text f) = true) :
  read_line_by_line st name = Ok (join [nl] (map strip (good_lines (text f))))
  /\ (forall cfg,
         file_is_large st name (LARGE_SIZE_FILE cfg) = false ->
         read_file cfg st name true
         = Ok (join [nl] (map strip (good_lines (text f)))))
  /\ (forall line,
         exists ws1 ws2,
           line = ws1 ++ strip line ++ ws2
           /\ forallb isspace ws1 = true /\ forallb isspace ws2 = true
           /\ match strip line with
              | c :: _ => isspace c = false
              | [] => True
              end
           /\ match rev (strip line) with
              | c :: _ => isspace c = false
              | [] => True
              end).
Proof.
  assert (E : read_line_by_line st name
              = Ok (join [nl] (map strip (good_lines (text f))))).
  { unfold read_line_by_line, open_text. rewrite Hf, Hr.
    rewrite (strip_each_line_clean _ [] Hclean). reflexivity. }
  split; [exact E|]. split.
  - intros cfg Hsmall. unfold read_file. rewrite Hsmall, E. reflexivity.
  - intros line. apply strip_by_spec.
Qed.

Lemma read_line_by_line_strips_both_ends_witness :
  read_line_by_line Examples.indented (Path (py "x.txt"))
  = Ok (py "a" ++ [nl] ++ py "b").
Proof.
  apply (read_line_by_line_strips_both_ends Examples.indented
           (Path (py "x.txt")) _ eq_refl eq_refl eq_refl).
Defined.

(* ------------------------------------------------------------------ *)
(** *** Temporary files are text *)

Lemma good_lines_of_list (ls : list str) :
  good_lines (fold_right Line Eof ls) = ls.
Proof. induction ls as [|l ls IH]; simpl; [reflexivity | now rewrite IH]. Qed.

Lemma ends_cleanly_of_list (ls : list str) :
  ends_cleanly (fold_right Line Eof ls) = true.
Proof. induction ls as [|l ls IH]; simpl; auto. Qed.

Lemma lines_of_nonempty (s : str) : forallb nonempty (lines_of s) = true.
Proof.
  induction s as [|c s IH]; simpl; [reflexivity|].
  destruct (N.eqb c nl); simpl; [exact IH|].
  destruct (lines_of s) as [|l ls]; simpl in *; [reflexivity|].
  apply andb_true_iff in IH. destruct IH as [_ IH]. exact IH.
Qed.

(** [read_file] sees a file only through what the file system holds for its
    name. *)
Lemma read_file_lookup (cfg : config) (st st' : fs) (name name' : file_name)
  (line_by_line : bool) :
  lookup st name = lookup st' name' ->
  read_file cfg st name line_by_line = read_file cfg st' name' line_by_line.
Proof.
  intros E.
  unfold read_file, file_is_large, path_exists, getsize,
    read_n_lines_from_file, read_line_by_line, read_all, open_text.
  rewrite E. reflexivity.
Qed.

(** A file that the program wrote is read back without an exception,
    whatever the constants are. *)
Lemma read_file_written (cfg : config) (st : fs) (name : file_name)
  (content : str) (line_by_line : bool) :
  lookup st name = Some (written_file content) ->
  exists body, read_file cfg st name line_by_line = Ok body.
Proof.
  intros Hf.
  set (ls := lines_of (universal_newlines content)).
  assert (Hclean : ends_cleanly (text (written_file content)) = true)
    by apply ends_cleanly_of_list.
  assert (Hok : stream_ok (text (written_file content)) = true).
  { unfold stream_ok. simpl. rewrite good_lines_of_list.
    apply lines_of_nonempty. }
  unfold read_file.
  destruct (file_is_large st name (LARGE_SIZE_FILE cfg)).
  - destruct (MAX_LINES_FOR_LARGE_FILE cfg) as [n|].
    + destruct (n =? 0); [eexists; reflexivity|].
      destruct (n >? 0); [|eexists; reflexivity].
      unfold read_n_lines_from_file, open_text. rewrite Hf. simpl can_read.
      cbv iota.
      rewrite (strip_n_lines_spec _ _ [] Hok (or_intror Hclean)).
      eexists; reflexivity.
    + unfold read_line_by_line, open_text. rewrite Hf. simpl can_read.
      cbv iota. rewrite (strip_each_line_clean _ [] Hclean).
      eexists; reflexivity.
  - unfold read_line_by_line, read_all, open_text. rewrite Hf.
    simpl can_read. cbv iota. destruct line_by_line.
    + rewrite (strip_each_line_clean _ [] Hclean). eexists; reflexivity.
    + rewrite (read_clean _ Hclean). eexists; reflexivity.
Qed.

Lemma nth_error_last {A} (l : list A) (x : A) :
  nth_error (l ++ [x]) (List.length l) = Some x.
Proof. induction l as [|y l IH]; simpl; auto. Qed.

(* ------------------------------------------------------------------ *)
(** *** What [read_archive] leaves in the file system *)

Lemma grown_refl (r : reader) : grown [] r r.
Proof. split; [reflexivity | simpl; now rewrite app_nil_r]. Qed.

Lemma grown_trans (cs1 cs2 : list str) (r1 r2 r3 : reader) :
  grown cs1 r1 r2 -> grown cs2 r2 r3 -> grown (cs1 ++ cs2) r1 r3.
Proof.
  intros [D1 T1] [D2 T2]. split; [congruence|].
  rewrite T2, T1, map_app, app_assoc. reflexivity.
Qed.

Lemma append_grown (part : str) (r : reader) :
  exists r', append part r = (Ok tt, r') /\ grown [] r r'.
Proof.
  eexists. split; [reflexivity|]. split; simpl; [reflexivity|].
  now rewrite app_nil_r.
Qed.

Lemma append_member_grown (cfg : config) (label content : str) (r : reader) :
  exists r', append_member cfg label content r = (Ok tt, r')
             /\ grown [content] r r'.
Proof.
  unfold append_member, bind, NamedTemporaryFile, lift. simpl.
  match goal with
  | |- context [read_file cfg ?st ?name false] =>
      destruct (read_file_written cfg st name content false) as [body ->]
  end.
  - simpl. apply nth_error_last.
  - eexists. split; [reflexivity|]. split; reflexivity.
Qed.

Lemma zip_member_grown (cfg : config) (path : str)
  (entry : str * result str) (r : reader) :
  exists r', zip_member cfg path entry r = (Ok tt, r')
             /\ grown (zip_extracted [entry]) r r'.
Proof.
  destruct entry as [name [content|e]]; unfold zip_member, try_except.
  - unfold bind at 1, lift.
    destruct (append_member_grown cfg (path ++ arrow ++ name) content r)
      as [r' [-> G]].
    exists r'. split; [reflexivity | exact G].
  - unfold bind, lift. apply append_grown.
Qed.

Lemma zip_loop_grown (cfg : config) (path : str) (z : zip_archive) (r : reader) :
  exists r', for_each z (zip_member cfg path) r = (Ok tt, r')
             /\ grown (zip_extracted z) r r'.
Proof.
  revert r. induction z as [|entry z IH]; intros r.
  - exists r. split; [reflexivity | apply grown_refl].
  - cbn [for_each]. unfold bind.
    destruct (zip_member_grown cfg path entry r) as [r1 [-> G1]].
    destruct (IH r1) as [r2 [-> G2]].
    exists r2. split; [reflexivity|].
    replace (zip_extracted (entry :: z))
      with (zip_extracted [entry] ++ zip_extracted z)
      by (unfold zip_extracted; simpl; now rewrite app_nil_r).
    eapply grown_trans; eassumption.
Qed.

Lemma tar_loop_grown (cfg : config) (path : str) (members : list tar_member)
  (r : reader) :
  exists res r', for_each members (tar_member_step cfg path) r = (res, r')
                 /\ grown (tar_extracted members) r r'.
Proof.
  revert r. induction members as [|m members IH]; intros r.
  - exists (Ok tt), r. split; [reflexivity | apply grown_refl].
  - cbn [for_each tar_extracted].
    set (loop := for_each members (tar_member_step cfg path)) in *.
    unfold bind at 1, tar_member_step.
    destruct (tm_isfile m).
    + unfold bind at 1, lift.
      destruct (tm_extract m) as [[content|]|e].
      * destruct (append_member_grown cfg (path ++ arrow ++ tm_name m)
                    content r) as [r1 [-> G1]].
        cbv beta iota.
        destruct (IH r1) as [res [r2 [-> G2]]].
        exists res, r2. split; [reflexivity|].
        exact (grown_trans _ _ _ _ _ G1 G2).
      * unfold ret. cbv beta iota.
        destruct (IH r) as [res [r2 [-> G2]]].
        exists res, r2. split; [reflexivity | exact G2].
      * exists (Raise e), r. split; [reflexivity | apply grown_refl].
    + unfold ret. cbv beta iota. destruct (IH r) as [res [r2 [-> G2]]].
      exists res, r2. split; [reflexivity | exact G2].
Qed.

Lemma extract_grown (cfg : config) (st : fs) (path : str) (t : archive_type)
  (parts : list str) :
  inspect_archive st path = Ok (Some t) ->
  exists res r',
    extract cfg t path {| r_fs := st; text_parts := parts |} = (res, r')
    /\ grown (extracted st path) {| r_fs := st; text_parts := parts |} r'.
Proof.
  intros Hi. unfold extracted. rewrite Hi.
  set (r := {| r_fs := st; text_parts := parts |}).
  destruct t; unfold extract, bind at 1, lift; simpl r_fs.
  - destruct (ZipFile st path) as [z|e].
    + destruct (zip_loop_grown cfg path z r) as [r' [-> G]].
      exists (Ok tt), r'. auto.
    + exists (Raise e), r. split; [reflexivity | apply grown_refl].
  - destruct (tarfile_getmembers st path) as [members|e].
    + apply tar_loop_grown.
    + exists (Raise e), r. split; [reflexivity | apply grown_refl].
  - destruct (opener_read Gz st path) as [content|e].
    + destruct (append_member_grown cfg (path ++ py " (decompressed)")
                  content r) as [r' [-> G]].
      exists (Ok tt), r'. auto.
    + exists (Raise e), r. split; [reflexivity | apply grown_refl].
  - destruct (opener_read Bz2 st path) as [content|e].
    + destruct (append_member_grown cfg (path ++ py " (decompressed)")
                  content r) as [r' [-> G]].
      exists (Ok tt), r'. auto.
    + exists (Raise e), r. split; [reflexivity | apply grown_refl].
  - destruct (opener_read Xz st path) as [content|e].
    + destruct (append_member_grown cfg (path ++ py " (decompressed)")
                  content r) as [r' [-> G]].
      exists (Ok tt), r'. auto.
    + exists (Raise e), r. split; [reflexivity | apply grown_refl].
Qed.

Lemma read_archive_grown (cfg : config) (st : fs) (path : str) :
  disk (snd (read_archive cfg path st)) = disk st
  /\ temps (snd (read_archive cfg path st))
     = temps st ++ map written_file (extracted st path).
Proof.
  unfold read_archive.
  destruct (inspect_archive st path) as [[t|]|e] eqn:Hi.
  - destruct (extract_grown cfg st path t [archive_header t path] Hi)
      as [res [r' [E [D T]]]].
    unfold try_except. rewrite E. simpl in D, T.
    destruct res as [[]|e]; simpl; split; assumption.
  - unfold extracted. rewrite Hi. simpl. now rewrite app_nil_r.
  - unfold extracted. rewrite Hi. simpl. now rewrite app_nil_r.
Qed.

(** C9, as the claim has it, fails: after [read_archive] has returned from a
    zip archive with one entry that can be extracted, the temporary file
    made for that entry is still there. *)
Lemma read_archive_temporary_file_remains :
  let st' := snd (read_archive shipped (py "pack.zip") Examples.zip_fs) in
  lookup Examples.zip_fs (TempName 0) = None
  /\ lookup st' (TempName 0) = Some (written_file (py "hello"))
  /\ temps st' <> temps Examples.zip_fs.
Proof.
  split; [reflexivity|]. split; [reflexivity|]. vm_compute. discriminate.
Qed.

(** C9, amended. [read_archive] deletes no temporary file: when it returns,
    the directory is as it was and the temporary files are those that were
    there before, followed by one file for each member whose content was
    extracted, holding that content.  Every temporary file that existed
    before the call or was created by it can still be looked up. *)
Theorem read_archive_keeps_temporary_files
  (cfg : config) (st : fs) (path : str) :
  let st' := snd (read_archive cfg path st) in
  disk st' = disk st
  /\ temps st' = temps st ++ map written_file (extracted st path)
  /\ (forall n f, lookup st (TempName n) = Some f ->
                  lookup st' (TempName n) = Some f)
  /\ (List.length (temps st')
      = List.length (temps st) + List.length (extracted st path))%nat.
Proof.
  pose proof (read_archive_grown cfg st path) as G.
  destruct G as [D T]. cbv zeta. split; [exact D|]. split; [exact T|]. split.
  - intros n f H. simpl in *. rewrite T.
    rewrite nth_error_app1; [exact H|].
    apply nth_error_Some. congruence.
  - rewrite T, length_app, length_map. reflexivity.
Qed.

(** A zip archive is read when an earlier temporary file exists: that file
    is still there afterwards, and the file of the extracted entry is added. *)
Lemma read_archive_keeps_temporary_files_witness :
  let st' := snd (read_archive shipped (py "pack.zip") Examples.zip_fs_later) in
  lookup st' (TempName 0) = Some (written_file (py "earlier"))
  /\ temps st' = [written_file (py "earlier"); written_file (py "hello")].
Proof.
  destruct (read_archive_keeps_temporary_files shipped Examples.zip_fs_later
              (py "pack.zip")) as [_ [Htemps [Hkept _]]].
  split.
  - apply Hkept. reflexivity.
  - rewrite Htemps. reflexivity.
Defined.

(** In a zip archive every entry gets its block, in the order of the
    archive: the content as [read_file] gives it when the entry could be
    extracted, ["[Unreadable file]"] when it could not. *)
Lemma append_member_exact (cfg : config) (label content : str) (r : reader) :
  append_member cfg label content r
  = (Ok tt,
     {| r_fs := {| disk := disk (r_fs r);
                   temps := temps (r_fs r) ++ [written_file content] |};
        text_parts := text_parts r
                      ++ [[nl] ++ py "## " ++ label ++ [nl]
                          ++ member_body cfg content ++ [nl]] |}).
Proof.
  unfold append_member, bind, NamedTemporaryFile, lift, member_body.
  cbv beta iota. cbn [r_fs].
  match goal with
  | |- context [read_file cfg ?st ?name false] =>
      rewrite (read_file_lookup cfg st
                 {| disk := fun _ => None; temps := [written_file content] |}
                 name (TempName 0) false)
        by (simpl; apply nth_error_last);
      destruct (read_file_written cfg
                  {| disk := fun _ => None; temps := [written_file content] |}
                  (TempName 0) content false eq_refl) as [body ->]
  end.
  reflexivity.
Qed.

Lemma zip_loop_blocks (cfg : config) (path : str) (z : zip_archive) (r : reader) :
  exists r', for_each z (zip_member cfg path) r = (Ok tt, r')
             /\ text_parts r' = text_parts r ++ map (zip_block cfg path) z.
Proof.
  revert r. induction z as [|[name extracted] z IH]; intros r.
  - exists r. split; [reflexivity | simpl; now rewrite app_nil_r].
  - cbn [for_each map]. unfold bind at 1.
    assert (E : exists r1,
               zip_member cfg path (name, extracted) r = (Ok tt, r1)
               /\ text_parts r1
                  = text_parts r ++ [zip_block cfg path (name, extracted)]).
    { unfold zip_member, try_except, zip_block. cbn [fst snd].
      destruct extracted as [content|e].
      - unfold bind at 1, lift. rewrite append_member_exact.
        eexists. split; reflexivity.
      - unfold bind, lift, append. eexists. split; reflexivity. }
    destruct E as [r1 [-> T1]]. destruct (IH r1) as [r2 [-> T2]].
    exists r2. split; [reflexivity|].
    rewrite T2, T1, <- app_assoc. reflexivity.
Qed.

Lemma read_archive_zip_renders_every_entry
  (cfg : config) (st : fs) (path : str) (z : zip_archive) :
  inspect_archive st path = Ok (Some Zip) ->
  ZipFile st path = Ok z ->
  fst (read_archive cfg path st)
  = Ok (join [nl] (archive_header Zip path :: map (zip_block cfg path) z)).
Proof.
  intros Hi Hz. unfold read_archive. rewrite Hi.
  unfold try_except, extract, bind at 1, lift. cbn [r_fs]. rewrite Hz.
  destruct (zip_loop_blocks cfg path z
              {| r_fs := st; text_parts := [archive_header Zip path] |})
    as [r' [-> T]].
  cbn [fst snd]. rewrite T. reflexivity.
Qed.

(** C1. With the constants of the source, a tar archive whose first member
    cannot be extracted is rendered as its header and the inline error of
    the whole archive: the member gets no ["[Unreadable file]"] block and the
    second member, which is readable, is not rendered at all.  A zip archive
    with the same two entries gets the ["[Unreadable file]"] block for the
    first and the content of the second: only the zip loop has its own
    [try]. *)
Theorem read_archive_tar_member_failure_aborts :
  fst (read_archive shipped (py "pack.tar") Examples.tar_fs)
  = Ok (py "## Archive content of pack.tar (tar)" ++ [nl]
        ++ py "[Error reading archive: [Errno 5] Input/output error]")
  /\ fst (read_archive shipped (py "pack.zip") Examples.zip_fs)
     = Ok (py "## Archive content of pack.zip (zip)" ++ [nl]
           ++ [nl] ++ py "## pack.zip" ++ arrow ++ py "a.bin" ++ [nl]
           ++ py "[Unreadable file]" ++ [nl]
           ++ [nl]
           ++ [nl] ++ py "## pack.zip" ++ arrow ++ py "b.txt" ++ [nl]
           ++ py "hello" ++ [nl]).
Proof. split; reflexivity. Qed.

(* ------------------------------------------------------------------ *)
(** *** The assembler reads the directory only *)

Lemma lookup_path_disk (st st' : fs) (p : str) :
  disk st' = disk st -> lookup st' (Path p) = lookup st (Path p).
Proof. intros E. simpl. now rewrite E. Qed.

Lemma inspect_archive_disk (st st' : fs) (path : str) :
  disk st' = disk st -> inspect_archive st' path = inspect_archive st path.
Proof.
  intros E. unfold inspect_archive, is_zipfile, is_tarfile. now rewrite E.
Qed.

Lemma opening_error_disk (t : archive_type) (st st' : fs) (path : str) :
  disk st' = disk st -> opening_error t st' path = opening_error t st path.
Proof.
  intros E.
  unfold opening_error, ZipFile, tarfile_getmembers, opener_read, on_disk.
  now rewrite E.
Qed.

Lemma read_archive_opening_error
  (cfg : config) (st : fs) (path : str) (t : archive_type) (e : exn) :
  inspect_archive st path = Ok (Some t) ->
  opening_error t st path = Some e ->
  read_archive cfg path st
  = (Ok (join [nl] [archive_header t path;
                    py "[Error reading archive: " ++ exn_msg e ++ py "]"]),
     st).
Proof.
  intros Hi He. unfold read_archive. rewrite Hi.
  unfold opening_error in He.
  assert (X : extract cfg t path
                {| r_fs := st; text_parts := [archive_header t path] |}
              = (Raise e, {| r_fs := st;
                             text_parts := [archive_header t path] |})).
  { destruct t; unfold extract, bind, lift; simpl r_fs.
    - destruct (ZipFile st path); [discriminate | congruence].
    - destruct (tarfile_getmembers st path); [discriminate | congruence].
    - destruct (opener_read Gz st path); [discriminate | congruence].
    - destruct (opener_read Bz2 st path); [discriminate | congruence].
    - destruct (opener_read Xz st path); [discriminate | congruence]. }
  unfold try_except. rewrite X.
  destruct st. reflexivity.
Qed.

Lemma file_content_disk (cfg : config) (file : str) (st : fs) :
  disk (snd (file_content cfg file st)) = disk st.
Proof.
  unfold file_content, bind at 1, lift.
  destruct (read_file cfg st (Path file) false) as [content_raw|e];
    [|reflexivity].
  destruct (str_eqb content_raw (py "Not a text file")); [|reflexivity].
  unfold bind at 1.
  destruct (inspect_archive st file) as [[t|]|e]; try reflexivity.
  destruct (READ_COMPRESSED_FILES cfg); [|reflexivity].
  unfold bind. pose proof (read_archive_grown cfg st file) as [D _].
  destruct (read_archive cfg file st) as [[rendered|e] st']; exact D.
Qed.

Lemma files_loop_disk (cfg : config) (files : list str) (text : str) (st : fs) :
  disk (snd (files_loop cfg files text st)) = disk st.
Proof.
  revert text st. induction files as [|file files IH]; intros text st.
  - reflexivity.
  - cbn [files_loop]. unfold bind.
    pose proof (file_content_disk cfg file st) as D.
    destruct (file_content cfg file st) as [[content|e] st1]; simpl in D.
    + rewrite IH. exact D.
    + exact D.
Qed.

(** The loop over a concatenation is the loop over the first part followed
    by the loop over the second, unless the first part raises. *)
Lemma files_loop_app (cfg : config) (before after : list str) (text : str)
  (st : fs) :
  files_loop cfg (before ++ after) text st
  = match files_loop cfg before text st with
    | (Ok text1, st1) => files_loop cfg after text1 st1
    | (Raise e, st1) => (Raise e, st1)
    end.
Proof.
  revert text st. induction before as [|file before IH]; intros text st.
  - reflexivity.
  - cbn [files_loop app]. unfold bind.
    destruct (file_content cfg file st) as [[content|e] st1];
      [apply IH | reflexivity].
Qed.

(** C7. [read_archive] does not let an exception of the extraction out:
    whatever is raised in its [try] block, it returns the parts rendered so
    far followed by the line ["[Error reading archive: <message>]"].  When
    the archive cannot even be opened (a zip file with a valid signature and
    a truncated body), the rendering is the header and that line, and no
    file is created.  In the assembler, with archives enabled, such a file
    (read as not a text file) contributes a block with that rendering and
    the loop goes on: the document for [before ++ path :: after] is the text
    built for [before], then the block of the archive, then what the loop
    builds for [after]. *)
Theorem read_archive_error_is_inline
  (cfg : config) (st : fs) (path : str) (t : archive_type)
  (Hi : inspect_archive st path = Ok (Some t)) :
  (forall e r',
      extract cfg t path
        {| r_fs := st; text_parts := [archive_header t path] |}
      = (Raise e, r') ->
      read_archive cfg path st
      = (Ok (join [nl]
               (text_parts r'
                ++ [py "[Error reading archive: " ++ exn_msg e ++ py "]"])),
         r_fs r'))
  /\ (forall e,
         opening_error t st path = Some e ->
         let rendering :=
           join [nl] [archive_header t path;
                      py "[Error reading archive: " ++ exn_msg e ++ py "]"] in
         read_archive cfg path st = (Ok rendering, st)
         /\ (READ_COMPRESSED_FILES cfg = true ->
             read_file cfg st (Path path) false = Ok (py "Not a text file") ->
             forall before after text,
               files_loop cfg (before ++ path :: after) text st
               = match files_loop cfg before text st with
                 | (Ok text1, st1) =>
                     files_loop cfg after
                       (text1 ++ path ++ [nl]
                        ++ (fence ++ rendering ++ fence)
                        ++ py "---" ++ [nl; nl]) st1
                 | (Raise e', st1) => (Raise e', st1)
                 end)).
Proof.
  split.
  - intros e r' E. unfold read_archive, try_except. rewrite Hi, E.
    reflexivity.
  - intros e He rendering. split.
    + apply read_archive_opening_error; assumption.
    + intros Hrc Hraw before after text.
      rewrite files_loop_app.
      pose proof (files_loop_disk cfg before text st) as D.
      destruct (files_loop cfg before text st) as [[text1|e'] st1];
        [|reflexivity].
      simpl in D. cbn [files_loop]. unfold bind at 1.
      assert (C : file_content cfg path st1
                  = (Ok (fence ++ rendering ++ fence), st1)).
      { unfold file_content, bind at 1, lift.
        rewrite (read_file_lookup cfg st1 st (Path path) (Path path) false
                   (lookup_path_disk st st1 path D)), Hraw.
        replace (str_eqb (py "Not a text file") (py "Not a text file"))
          with true by reflexivity.
        unfold bind at 1. rewrite (inspect_archive_disk st st1 path D), Hi.
        rewrite Hrc. unfold bind.
        rewrite (read_archive_opening_error cfg st1 path t e).
        - reflexivity.
        - now rewrite (inspect_archive_disk st st1 path D).
        - now rewrite (opening_error_disk t st st1 path D). }
      rewrite C. reflexivity.
Qed.

(** A zip archive with a truncated body before a text file: its rendering,
    and the blocks of the two files. *)
Lemma read_archive_error_is_inline_witness :
  read_archive shipped (py "bad.zip") Examples.corrupt_fs
  = (Ok (py "## Archive content of bad.zip (zip)" ++ [nl]
         ++ py "[Error reading archive: Bad magic number for central directory]"),
     Examples.corrupt_fs)
  /\ files_loop shipped ([] ++ py "bad.zip" :: [py "a.txt"]) []
       Examples.corrupt_fs
     = (Ok (py "bad.zip" ++ [nl] ++ fence
            ++ py "## Archive content of bad.zip (zip)" ++ [nl]
            ++ py "[Error reading archive: Bad magic number for central directory]"
            ++ fence ++ py "---" ++ [nl; nl]
            ++ py "a.txt" ++ [nl] ++ fence ++ py "hi" ++ fence
            ++ py "---" ++ [nl; nl]),
        Examples.corrupt_fs)
  /\ make_text_from_files shipped [py "bad.zip"; py "a.txt"] None
       Examples.corrupt_fs
     = (Ok (py "Project structure" ++ [nl; nl]
            ++ py ". Files that were selected:" ++ [nl]
            ++ py "|" ++ [nl]
            ++ tee ++ py "a.txt" ++ [nl]
            ++ corner ++ py "bad.zip" ++ [nl]
            ++ [nl]
            ++ py "0 directories, 2 files"
            ++ [nl; nl] ++ py "---" ++ [nl; nl]
            ++ py "bad.zip" ++ [nl] ++ fence
            ++ py "## Archive content of bad.zip (zip)" ++ [nl]
            ++ py "[Error reading archive: Bad magic number for central directory]"
            ++ fence ++ py "---" ++ [nl; nl]
            ++ py "a.txt" ++ [nl] ++ fence ++ py "hi" ++ fence
            ++ py "---" ++ [nl; nl]),
        Examples.corrupt_fs).
Proof.
  destruct (read_archive_error_is_inline shipped Examples.corrupt_fs
              (py "bad.zip") Zip eq_refl) as [Hany Hopen].
  destruct (Hopen Examples.truncated eq_refl) as [Hrender Hloop].
  split.
  - rewrite (Hany Examples.truncated
               {| r_fs := Examples.corrupt_fs;
                  text_parts := [archive_header Zip (py "bad.zip")] |}
               eq_refl).
    reflexivity.
  - split; [|reflexivity].
    rewrite (Hloop eq_refl eq_refl [] [py "a.txt"] []). reflexivity.
Defined.

(* ------------------------------------------------------------------ *)
(** *** The sentinel *)

Lemma inspect_archive_readable (st : fs) (path : str) (f : file) :
  lookup st (Path path) = Some f -> can_read f = true ->
  exists info, inspect_archive st path = Ok info.
Proof.
  simpl. unfold inspect_archive, is_zipfile, is_tarfile.
  destruct (disk st path) as [d|]; simpl; [|discriminate].
  intros E Hr. inversion E; subst. rewrite Hr.
  destruct (is_some (as_zip d)); simpl; [eexists; reflexivity|].
  destruct (is_some (as_tar d)); [eexists; reflexivity|].
  destruct (endswith (py ".gz") path); [eexists; reflexivity|].
  destruct (endswith (py ".bz2") path); [eexists; reflexivity|].
  destruct (endswith (py ".xz") path); eexists; reflexivity.
Qed.

Lemma read_archive_returns (cfg : config) (st : fs) (path : str)
  (info : option archive_type) :
  inspect_archive st path = Ok info ->
  exists rendered, fst (read_archive cfg path st) = Ok rendered.
Proof.
  intros Hi. unfold read_archive. rewrite Hi.
  destruct info; eexists; reflexivity.
Qed.

(** C10, as the claim has it, fails: a text file that holds exactly the
    words ["Not a text file"], under a name that is no archive, is emitted
    as its content between the fences, which is the content verbatim. *)
Lemma sentinel_text_emitted_verbatim :
  read (text Examples.sentinel_text) = Ok (py "Not a text file")
  /\ inspect_archive Examples.sentinel_fs (py "note.txt") = Ok None
  /\ file_content shipped (py "note.txt") Examples.sentinel_fs
     = (Ok (verbatim (py "Not a text file")), Examples.sentinel_fs)
  /\ ~ (fst (file_content shipped (py "note.txt") Examples.sentinel_fs)
        <> Ok (verbatim (py "Not a text file"))).
Proof.
  split; [reflexivity|]. split; [reflexivity|]. split; [reflexivity|].
  intros H. apply H. reflexivity.
Qed.

(** C10, amended. A text file that is not large and whose whole content is
    exactly ["Not a text file"] is read as the sentinel, and the assembler,
    which compares strings, takes the branch of the files that are not text:
    it classifies the path; when the path is classified as an archive the
    block is the rendering of [read_archive] between the fences (or the
    ["`Archive skipped`"] line when archives are disabled); when it is not
    classified the block is ["Not a text file"] between the fences, which is
    the same text as the content written out verbatim. *)
Theorem sentinel_content_takes_archive_branch
  (cfg : config) (st : fs) (path : str) (f : file)
  (Hf : lookup st (Path path) = Some f)
  (Hr : can_read f = true)
  (Hsmall : file_is_large st (Path path) (LARGE_SIZE_FILE cfg) = false)
  (Htext : read (text f) = Ok (py "Not a text file")) :
  read_file cfg st (Path path) false = Ok (py "Not a text file")
  /\ exists info,
       inspect_archive st path = Ok info
       /\ match info with
          | Some _ =>
              if READ_COMPRESSED_FILES cfg then
                exists rendered,
                  fst (read_archive cfg path st) = Ok rendered
                  /\ file_content cfg path st
                     = (Ok (fence ++ rendered ++ fence),
                        snd (read_archive cfg path st))
              else
                file_content cfg path st
                = (Ok (py "`Archive skipped`" ++ [nl]), st)
          | None =>
              file_content cfg path st
              = (Ok (verbatim (py "Not a text file")), st)
          end.
Proof.
  assert (Hraw : read_file cfg st (Path path) false = Ok (py "Not a text file")).
  { unfold read_file. rewrite Hsmall. unfold read_all, open_text.
    rewrite Hf, Hr, Htext. reflexivity. }
  split; [exact Hraw|].
  destruct (inspect_archive_readable st path f Hf Hr) as [info Hi].
  exists info. split; [exact Hi|].
  assert (C : file_content cfg path st
              = match info with
                | Some _ =>
                    if READ_COMPRESSED_FILES cfg then
                      bind (read_archive cfg path)
                        (fun rendered => ret (fence ++ rendered ++ fence)) st
                    else (Ok (py "`Archive skipped`" ++ [nl]), st)
                | None => (Ok (fence ++ py "Not a text file" ++ fence), st)
                end).
  { unfold file_content, bind at 1, lift. rewrite Hraw.
    replace (str_eqb (py "Not a text file") (py "Not a text file"))
      with true by reflexivity.
    unfold bind at 1. rewrite Hi.
    destruct info; [|reflexivity].
    destruct (READ_COMPRESSED_FILES cfg); reflexivity. }
  rewrite C. destruct info as [t|]; [|reflexivity].
  destruct (READ_COMPRESSED_FILES cfg); [|reflexivity].
  destruct (read_archive_returns cfg st path (Some t) Hi) as [rendered Hrd].
  exists rendered. split; [exact Hrd|].
  unfold bind, ret.
  destruct (read_archive cfg path st) as [r st']. simpl in Hrd. subst r.
  reflexivity.
Qed.

(** The file [note.gz] holds the words of the sentinel: its block is the
    rendering of an archive that cannot be opened. *)
Lemma sentinel_content_takes_archive_branch_witness :
  read_file shipped Examples.sentinel_gz_fs (Path (py "note.gz")) false
  = Ok (py "Not a text file")
  /\ fst (file_content shipped (py "note.gz") Examples.sentinel_gz_fs)
     = Ok (fence ++ py "## Archive content of note.gz (gz)" ++ [nl]
           ++ py "[Error reading archive: Not a compressed file]" ++ fence).
Proof.
  destruct (sentinel_content_takes_archive_branch shipped
              Examples.sentinel_gz_fs (py "note.gz") Examples.sentinel_text
              eq_refl eq_refl eq_refl eq_refl) as [Hraw [info [Hi Hblock]]].
  split; [exact Hraw|].
  assert (E : info = Some Gz) by (vm_compute in Hi; congruence).
  subst info. simpl in Hblock. destruct Hblock as [rendered [Hrd ->]].
  vm_compute in Hrd. inversion Hrd. reflexivity.
Defined.

(* ------------------------------------------------------------------ *)
(** *** The order of strings and the sort *)

Lemma str_leb_spec (a b : str) : str_leb a b = true <-> lex_le a b.
Proof.
  revert b. induction a as [|x a IH]; intros b; simpl.
  - split; [intros _; constructor | reflexivity].
  - destruct b as [|y b].
    + split; [discriminate | intros H; inversion H].
    + destruct (N.ltb_spec x y) as [Hlt|Hge].
      * split; [intros _; now constructor | reflexivity].
      * destruct (N.eqb_spec x y) as [->|Hne].
        -- rewrite IH. split; [now constructor|].
           intros H. inversion H; subst; [lia | assumption].
        -- split; [discriminate|].
           intros H. inversion H; subst; [lia | congruence].
Qed.

Lemma str_leb_total (a b : str) : str_leb a b = false -> str_leb b a = true.
Proof.
  revert b. induction a as [|x a IH]; intros b; simpl; [discriminate|].
  destruct b as [|y b]; [reflexivity|]. simpl.
  destruct (N.ltb_spec x y) as [Hlt|Hge]; [discriminate|].
  destruct (N.eqb_spec x y) as [->|Hne].
  - rewrite N.ltb_irrefl, N.eqb_refl. apply IH.
  - intros _. destruct (N.ltb_spec y x) as [_|Hle]; [reflexivity | lia].
Qed.

Section SortedFacts.

Context {V : Type}.

Lemma insert_sorted_perm (x : str * V) (l : list (str * V)) :
  Permutation (insert_sorted x l) (x :: l).
Proof.
  induction l as [|y l IH]; simpl; [reflexivity|].
  destruct (str_leb (fst x) (fst y)); [reflexivity|].
  rewrite IH. apply perm_swap.
Qed.

Lemma sorted_perm (l : list (str * V)) : Permutation (sorted l) l.
Proof.
  induction l as [|x l IH]; simpl; [reflexivity|].
  rewrite insert_sorted_perm. now constructor.
Qed.

Lemma insert_sorted_Sorted (x : str * V) (l : list (str * V)) :
  Sorted by_name l -> Sorted by_name (insert_sorted x l).
Proof.
  induction l as [|y l IH]; intros H; simpl.
  - repeat constructor.
  - destruct (str_leb (fst x) (fst y)) eqn:E.
    + constructor; [exact H|]. constructor. now apply str_leb_spec.
    + apply Sorted_inv in H. destruct H as [Hl Hy].
      constructor; [now apply IH|].
      apply str_leb_total, str_leb_spec in E.
      destruct l as [|z l]; simpl.
      * constructor. exact E.
      * destruct (str_leb (fst x) (fst z)); constructor;
          [exact E | now inversion Hy].
Qed.

Lemma sorted_Sorted (l : list (str * V)) : Sorted by_name (sorted l).
Proof.
  induction l as [|x l IH]; simpl;
    [constructor | now apply insert_sorted_Sorted].
Qed.

End SortedFacts.

(** The sort looks at the names only: it commutes with any change of what
    is stored under them. *)
Lemma insert_sorted_map {V W} (g : str * V -> str * W) (x : str * V)
  (l : list (str * V)) :
  (forall y, fst (g y) = fst y) ->
  insert_sorted (g x) (map g l) = map g (insert_sorted x l).
Proof.
  intros Hg. induction l as [|y l IH]; simpl; [reflexivity|].
  rewrite !Hg. destruct (str_leb (fst x) (fst y)); simpl;
    [reflexivity | now rewrite IH].
Qed.

Lemma sorted_map {V W} (g : str * V -> str * W) (l : list (str * V)) :
  (forall y, fst (g y) = fst y) ->
  sorted (map g l) = map g (sorted l).
Proof.
  intros Hg. induction l as [|x l IH]; simpl; [reflexivity|].
  rewrite IH. now apply insert_sorted_map.
Qed.

Lemma with_below_fst {B} (below : tree -> B) (kv : str * tree) :
  fst (with_below below kv) = fst kv.
Proof. destruct kv; reflexivity. Qed.

(** [_print_tree] as the source has it: sort the items, then loop, calling
    [_print_tree] on each subtree. *)
Lemma _print_tree_unfold (kids : list (str * tree)) (prefix : str)
  (c : counters) :
  _print_tree (Node kids) prefix c
  = print_items (List.length kids) 0
      (map (with_below _print_tree) (sorted kids)) prefix [] c.
Proof.
  change (_print_tree (Node kids) prefix c)
    with (print_items
            (List.length (sorted (map (with_below _print_tree) kids))) 0
            (sorted (map (with_below _print_tree) kids)) prefix [] c).
  rewrite (sorted_map (with_below _print_tree) kids
             (with_below_fst _print_tree)).
  rewrite length_map, (Permutation_length (sorted_perm kids)).
  reflexivity.
Qed.

Lemma preorder_unfold (kids : list (str * tree)) :
  preorder (Node kids)
  = flat_map (fun kv : str * tree => kv :: preorder (snd kv)) (sorted kids).
Proof.
  change (preorder (Node kids))
    with (flat_map (fun x : str * (tree * list (str * tree)) =>
                      (fst x, fst (snd x)) :: snd (snd x))
            (sorted (map (with_below preorder) kids))).
  rewrite (sorted_map (with_below preorder) kids (with_below_fst preorder)).
  induction (sorted kids) as [|[name subtree] l IH]; simpl;
    [reflexivity | now rewrite IH].
Qed.

(* ------------------------------------------------------------------ *)
(** *** What [_print_tree] prints and counts *)

Lemma total_perm (l l' : list Z) : Permutation l l' -> total l = total l'.
Proof.
  induction 1; simpl; unfold total in *; simpl; lia.
Qed.

Lemma count_dirs_unfold (kids : list (str * tree)) :
  count_dirs (Node kids) = total (map dirs_of kids).
Proof.
  simpl. unfold total. f_equal. apply map_ext. now intros [name subtree].
Qed.

Lemma count_files_unfold (kids : list (str * tree)) :
  count_files (Node kids) = total (map files_of kids).
Proof.
  simpl. unfold total. f_equal. apply map_ext. now intros [name subtree].
Qed.

Lemma shows_line (prefix connector name : str) (subtree : tree) :
  connector = corner \/ connector = tee ->
  shows (prefix ++ connector ++ name
         ++ (if bool_of_dict subtree then [slash] else []))
        (name, subtree).
Proof.
  intros [->| ->]; unfold shows, corner, tee; simpl fst; simpl snd.
  - exists (prefix ++ [9492; 9472; 9472]%N). now rewrite <- app_assoc.
  - exists (prefix ++ [9500; 9472; 9472]%N). now rewrite <- app_assoc.
Qed.

(** One round of the loop. *)
Lemma print_items_cons (n i : nat) (name : str) (subtree : tree)
  (print_subtree : printer) (items : list (str * (tree * printer)))
  (prefix : str) (lines : list str) (c : counters) :
  let last := Nat.eqb i (n - 1) in
  let line := prefix ++ (if last then corner else tee) ++ name
              ++ (if bool_of_dict subtree then [slash] else []) in
  let c1 := if bool_of_dict subtree
            then (fst c + 1, snd c) else (fst c, snd c + 1) in
  let r := print_subtree (prefix ++ (if last then blank else bar)) c1 in
  print_items n i ((name, (subtree, print_subtree)) :: items) prefix lines c
  = print_items n (S i) items prefix ((lines ++ [line]) ++ fst r) (snd r).
Proof.
  cbn [print_items]. destruct (bool_of_dict subtree); cbv zeta.
  - destruct (print_subtree _ _). reflexivity.
  - rewrite app_nil_r. destruct (print_subtree _ _). reflexivity.
Qed.

Lemma print_items_spec (n : nat) (prefix : str) (items : list (str * tree)) :
  Forall (fun kv : str * tree => prints_well (snd kv)) items ->
  forall i lines c,
  exists printed,
    fst (print_items n i (map (with_below _print_tree) items) prefix lines c)
    = lines ++ printed
    /\ Forall2 shows printed
         (flat_map (fun kv : str * tree => kv :: preorder (snd kv)) items)
    /\ snd (print_items n i (map (with_below _print_tree) items)
              prefix lines c)
       = (fst c + total (map dirs_of items),
          snd c + total (map files_of items)).
Proof.
  induction 1 as [|[name subtree] items Hsub _ IH]; intros i lines c.
  - exists []. simpl. rewrite app_nil_r, !Z.add_0_r.
    destruct c; repeat split. constructor.
  - cbn [map flat_map snd]. cbn [snd] in Hsub.
    change (with_below _print_tree (name, subtree))
      with (name, (subtree, _print_tree subtree)).
    rewrite print_items_cons. cbv zeta.
    match goal with
    | |- context [print_items n (S i) _ prefix
                    ((lines ++ [?line]) ++ fst (_ ?p ?c1)) _] =>
        assert (Hline : shows line (name, subtree))
          by (apply shows_line; destruct (Nat.eqb i (n - 1)); auto);
        destruct (Hsub p c1) as [Hb Hcnt];
        destruct (IH (S i) ((lines ++ [line]) ++
                            fst (_print_tree subtree p c1))
                    (snd (_print_tree subtree p c1)))
          as [printed [E1 [E2 E3]]];
        exists (line :: fst (_print_tree subtree p c1) ++ printed)
    end.
    split; [|split].
    + rewrite E1, <- !app_assoc. reflexivity.
    + constructor; [exact Hline|]. apply Forall2_app; assumption.
    + rewrite E3, Hcnt. unfold total. cbn [fst snd map fold_right].
      unfold dirs_of at 2, files_of at 2. cbn [snd].
      destruct (bool_of_dict subtree); cbn [fst snd]; f_equal; lia.
Qed.

Lemma _print_tree_prints_well (d : tree) : prints_well d.
Proof.
  induction d as [kids IH] using tree_induction. intros prefix c.
  assert (IHs : Forall (fun kv : str * tree => prints_well (snd kv))
                  (sorted kids)).
  { eapply Permutation_Forall; [|exact IH].
    symmetry. apply sorted_perm. }
  rewrite _print_tree_unfold, preorder_unfold.
  destruct (print_items_spec (List.length kids) prefix (sorted kids) IHs
              0%nat [] c) as [printed [E1 [E2 E3]]].
  rewrite E1, E3. cbn [app]. split; [exact E2|].
  rewrite count_dirs_unfold, count_files_unfold.
  rewrite (total_perm _ _ (Permutation_map dirs_of (sorted_perm kids))).
  rewrite (total_perm _ _ (Permutation_map files_of (sorted_perm kids))).
  reflexivity.
Qed.

(* ------------------------------------------------------------------ *)
(** *** Names have no separator *)

Lemma split_no_sep (sep : char) (s : str) :
  forallb (fun w => negb (existsb (N.eqb sep) w)) (split sep s) = true.
Proof.
  induction s as [|c s IH]; simpl; [reflexivity|].
  destruct (N.eqb c sep) eqn:E; simpl; [exact IH|].
  assert (E' : N.eqb sep c = false) by (now rewrite N.eqb_sym).
  destruct (split sep s) as [|w ws]; simpl in *; now rewrite E'.
Qed.

Lemma names_ok_setdefault (p : str -> bool) (part : str) (f : tree -> tree)
  (items : list (str * tree)) :
  p part = true ->
  (forall subtree, names_ok p subtree = true -> names_ok p (f subtree) = true) ->
  names_ok p (Node items) = true ->
  names_ok p (Node (setdefault_then part f items)) = true.
Proof.
  intros Hp Hf. induction items as [|[name subtree] items IH]; intros H.
  - simpl. rewrite Hp, (Hf (Node []) eq_refl). reflexivity.
  - cbn [setdefault_then]. cbn [names_ok forallb] in H.
    apply andb_true_iff in H. destruct H as [H1 H2].
    apply andb_true_iff in H1. destruct H1 as [Hn Hs].
    destruct (str_eqb name part).
    + cbn [names_ok forallb]. fold (names_ok p).
      rewrite Hn, (Hf subtree Hs). exact H2.
    + cbn [names_ok forallb]. fold (names_ok p).
      rewrite Hn, Hs. apply (IH H2).
Qed.

Lemma names_ok_insert (p : str -> bool) (parts : list str) (d : tree) :
  forallb p parts = true -> names_ok p d = true ->
  names_ok p (insert_parts parts d) = true.
Proof.
  revert d. induction parts as [|part parts IH]; intros d Hp Hd; [exact Hd|].
  simpl in Hp. apply andb_true_iff in Hp. destruct Hp as [Hp Hps].
  cbn [insert_parts]. apply names_ok_setdefault.
  - exact Hp.
  - intros subtree. apply IH. exact Hps.
  - destruct d. exact Hd.
Qed.

Lemma names_ok_fold (paths : list str) (d : tree) :
  names_ok no_slash d = true ->
  names_ok no_slash
    (fold_left (fun tree path => insert_parts (segments path) tree) paths d)
  = true.
Proof.
  revert d. induction paths as [|path paths IH]; intros d Hd; [exact Hd|].
  simpl. apply IH. apply names_ok_insert; [|exact Hd].
  apply split_no_sep.
Qed.

Lemma names_ok_build (paths : list str) :
  names_ok no_slash (build_tree paths) = true.
Proof. apply names_ok_fold. reflexivity. Qed.

Lemma preorder_names (p : str -> bool) (d : tree) :
  names_ok p d = true ->
  Forall (fun entry : str * tree => p (fst entry) = true) (preorder d).
Proof.
  induction d as [kids IH] using tree_induction. intros H.
  rewrite preorder_unfold. apply Forall_forall. intros entry Hin.
  apply in_flat_map in Hin. destruct Hin as [[name subtree] [Hkv Hin]].
  apply (Permutation_in _ (sorted_perm kids)) in Hkv.
  cbn [names_ok] in H. rewrite forallb_forall in H.
  pose proof (H _ Hkv) as Hk. cbv beta iota in Hk.
  apply andb_true_iff in Hk. destruct Hk as [Hn Hs].
  destruct Hin as [<-|Hin]; [exact Hn|].
  rewrite Forall_forall in IH. specialize (IH _ Hkv Hs).
  rewrite Forall_forall in IH. apply IH. exact Hin.
Qed.

(** On a name without ["/"], the line ends in ["/"] exactly when the entry
    has a child. *)
Lemma shows_slash (line : str) (entry : str * tree) :
  shows line entry -> no_slash (fst entry) = true ->
  endswith [slash] line = bool_of_dict (snd entry).
Proof.
  intros [indent ->] Hn. unfold endswith.
  rewrite !rev_app_distr. destruct (bool_of_dict (snd entry)).
  - reflexivity.
  - cbn [rev app]. destruct (rev (fst entry)) as [|x r] eqn:E; [reflexivity|].
    cbn [app startswith rev].
    assert (Hx : In x (fst entry)).
    { apply in_rev. rewrite E. now left. }
    unfold no_slash in Hn. apply negb_true_iff in Hn.
    destruct (N.eqb slash x) eqn:Ex; [|reflexivity].
    assert (existsb (N.eqb slash) (fst entry) = true)
      by (apply existsb_exists; eauto).
    congruence.
Qed.

(* ------------------------------------------------------------------ *)
(** *** What the tree holds *)

Lemma assoc_setdefault_then (k part : str) (f : tree -> tree)
  (items : list (str * tree)) :
  assoc k (setdefault_then part f items)
  = if str_eqb part k
    then Some (f (match assoc part items with
                  | Some subtree => subtree
                  | None => Node []
                  end))
    else assoc k items.
Proof.
  induction items as [|[name subtree] items IH].
  - simpl. destruct (str_eqb part k); reflexivity.
  - cbn [setdefault_then assoc].
    destruct (str_eqb name part) eqn:Enp.
    + apply str_eqb_eq in Enp. subst name. cbn [assoc].
      destruct (str_eqb part k); reflexivity.
    + cbn [assoc]. destruct (str_eqb name k) eqn:Enk.
      * apply str_eqb_eq in Enk. subst k.
        destruct (str_eqb part name) eqn:Epn; [|reflexivity].
        apply str_eqb_eq in Epn. subst part.
        rewrite (proj2 (str_eqb_eq name name) eq_refl) in Enp. discriminate.
      * exact IH.
Qed.

Lemma present_empty (parts : list str) :
  present parts (Node []) <-> parts = [].
Proof.
  unfold present. destruct parts; simpl; split; congruence.
Qed.

Lemma prefix_of_cons (k part : str) (parts q : list str) :
  prefix_of (k :: parts) (part :: q) <-> part = k /\ prefix_of parts q.
Proof.
  unfold prefix_of. split.
  - intros [rest H]. inversion H; subst. split; [reflexivity|].
    exists rest. reflexivity.
  - intros [-> [rest ->]]. exists rest. reflexivity.
Qed.

(** After a path has been inserted, the tree holds what it held before and
    the beginnings of that path. *)
Lemma present_insert (q parts : list str) (d : tree) :
  present parts (insert_parts q d) <-> present parts d \/ prefix_of parts q.
Proof.
  revert parts d. induction q as [|part q IH]; intros parts d.
  - cbn [insert_parts]. split; [auto|]. intros [H|[rest H]]; [exact H|].
    symmetry in H. apply app_eq_nil in H. destruct H as [-> _].
    unfold present. simpl. discriminate.
  - destruct parts as [|k parts].
    + unfold present. simpl. split; [left|]; discriminate.
    + rewrite prefix_of_cons. unfold present at 1 2.
      cbn [insert_parts subtree_at items_of].
      rewrite assoc_setdefault_then.
      destruct (str_eqb part k) eqn:E.
      * apply str_eqb_eq in E. subst k.
        fold (present parts
                (insert_parts q
                   match assoc part (items_of d) with
                   | Some subtree => subtree
                   | None => Node []
                   end)).
        rewrite IH.
        destruct (assoc part (items_of d)) as [subtree|].
        -- unfold present. tauto.
        -- rewrite present_empty. split.
           ++ intros [->|H]; right; (split; [reflexivity|]);
                [exists q; reflexivity | exact H].
           ++ intros [H|[_ H]]; [congruence | right; exact H].
      * assert (part <> k).
        { intros ->. assert (str_eqb k k = true) by now apply str_eqb_eq.
          congruence. }
        tauto.
Qed.

Lemma present_fold (paths : list str) (parts : list str) (d : tree) :
  present parts
    (fold_left (fun tree path => insert_parts (segments path) tree) paths d)
  <-> present parts d
      \/ exists path, In path paths /\ prefix_of parts (segments path).
Proof.
  revert d. induction paths as [|path paths IH]; intros d.
  - simpl. split; [auto|]. intros [H|[path [[] _]]]. exact H.
  - cbn [fold_left]. rewrite IH, present_insert. split.
    + intros [[H|H]|[p [Hin H]]]; [left; exact H | right | right].
      * exists path. split; [now left | exact H].
      * exists p. split; [now right | exact H].
    + intros [H|[p [[<-|Hin] H]]]; [left; left; exact H | left; right; exact H|].
      right. exists p. auto.
Qed.

Lemma Forall2_with_right {A B} (R Q : A -> B -> Prop) (P : B -> Prop)
  (l : list A) (l' : list B) :
  (forall a b, R a b -> P b -> Q a b) ->
  Forall2 R l l' -> Forall P l' -> Forall2 (fun a b => R a b /\ Q a b) l l'.
Proof.
  intros H. induction 1 as [|a b l l' Hab _ IH]; intros HP; constructor.
  - inversion HP; subst. auto.
  - inversion HP; subst. auto.
Qed.

Lemma bool_of_dict_child (d : tree) :
  bool_of_dict d = true <-> exists name child, In (name, child) (items_of d).
Proof.
  destruct d as [[|[name child] kids]]; simpl.
  - split; [discriminate | intros [n [c []]]].
  - split; [|reflexivity]. intros _. exists name, child. now left.
Qed.

(** C3. [paths_as_tree] builds the tree by splitting every path on ["/"]:
    the tree holds exactly the non-empty beginnings of the segment lists of
    the paths.  At every dictionary the loop of [_print_tree] runs over the
    items sorted by name in lexicographic order.  Each entry gets one line,
    in depth-first order, made of an indentation, the name, and a final
    ["/"] exactly when the dictionary under the name has at least one key;
    [dirs_count] is the number of entries with a child and [files_count] the
    number of entries without.  For ["a/b.txt", "a/c.txt", "d.txt"] the
    listing has [a/] before [d.txt] at the root and the summary
    ["1 directories, 3 files"]. *)
Theorem paths_as_tree_renders_sorted_tree :
  (forall paths part parts,
      subtree_at (part :: parts) (build_tree paths) <> None <->
      exists path, In path paths /\ prefix_of (part :: parts) (segments path))
  /\ (forall kids prefix c,
         _print_tree (Node kids) prefix c
         = print_items (List.length kids) 0
             (map (with_below _print_tree) (sorted kids)) prefix [] c)
  /\ (forall kids : list (str * tree),
         Sorted by_name (sorted kids) /\ Permutation (sorted kids) kids)
  /\ (forall d, bool_of_dict d = true <->
                exists name child, In (name, child) (items_of d))
  /\ (forall paths,
         let d := build_tree paths in
         let printed := _print_tree d [] (0, 0) in
         Forall2 (fun line entry =>
                    shows line entry
                    /\ endswith [slash] line = bool_of_dict (snd entry))
                 (fst printed) (preorder d)
         /\ snd printed = (count_dirs d, count_files d)
         /\ paths_as_tree paths
            = join [nl]
                ([py ". Files that were selected:" ++ [nl] ++ py "|"]
                 ++ fst printed
                 ++ [[nl] ++ str_of_Z (count_dirs d) ++ py " directories, "
                     ++ str_of_Z (count_files d) ++ py " files"]))
  /\ paths_as_tree [py "a/b.txt"; py "a/c.txt"; py "d.txt"]
     = py ". Files that were selected:" ++ [nl]
       ++ py "|" ++ [nl]
       ++ tee ++ py "a/" ++ [nl]
       ++ bar ++ tee ++ py "b.txt" ++ [nl]
       ++ bar ++ corner ++ py "c.txt" ++ [nl]
       ++ corner ++ py "d.txt" ++ [nl]
       ++ [nl]
       ++ py "1 directories, 3 files".
Proof.
  split; [|split; [|split; [|split; [|split]]]].
  - intros paths part parts. unfold build_tree.
    fold (present (part :: parts)
            (fold_left
               (fun tree path => insert_parts (split slash (strip_slash path)) tree)
               paths (Node []))).
    change (fun tree path => insert_parts (split slash (strip_slash path)) tree)
      with (fun tree path => insert_parts (segments path) tree).
    rewrite present_fold, present_empty. split.
    + intros [H|H]; [discriminate | exact H].
    + auto.
  - exact _print_tree_unfold.
  - intros kids. split; [apply sorted_Sorted | apply sorted_perm].
  - exact bool_of_dict_child.
  - intros paths d printed.
    destruct (_print_tree_prints_well d [] (0, 0)) as [Hlines Hcount].
    fold printed in Hlines, Hcount. split; [|split].
    + apply Forall2_with_right
        with (P := fun entry : str * tree => no_slash (fst entry) = true).
      * intros line entry. apply shows_slash.
      * exact Hlines.
      * apply preorder_names, names_ok_build.
    + exact Hcount.
    + unfold paths_as_tree. fold d. fold printed.
      destruct printed as [lines [dirs files]]. simpl in Hcount.
      inversion Hcount; subst. reflexivity.
  - reflexivity.
Qed.

(** The tree of ["a/b.txt", "a/c.txt", "d.txt"] holds [a/b.txt]; its
    entries in the order of the listing are [a], [b.txt], [c.txt], [d.txt];
    one of them has a child. *)
Lemma paths_as_tree_renders_sorted_tree_witness :
  let paths := [py "a/b.txt"; py "a/c.txt"; py "d.txt"] in
  subtree_at [py "a"; py "b.txt"] (build_tree paths) <> None
  /\ map fst (preorder (build_tree paths))
     = [py "a"; py "b.txt"; py "c.txt"; py "d.txt"]
  /\ snd (_print_tree (build_tree paths) [] (0, 0)) = (1, 3).
Proof.
  intros paths.
  destruct paths_as_tree_renders_sorted_tree
    as [Hbuild [_ [_ [_ [Hprint _]]]]].
  split; [|split].
  - apply (proj2 (Hbuild paths (py "a") [py "b.txt"])).
    exists (py "a/b.txt"). split; [now left|]. exists []. reflexivity.
  - reflexivity.
  - destruct (Hprint paths) as [_ [Hcount _]]. rewrite Hcount. reflexivity.
Defined.

(* ================================================================== *)
(** ** Further properties *)

(* ------------------------------------------------------------------ *)
(** *** [read_file] and [count_lines_in_file] *)

(** X1. A file that does not exist is never large, and opening it is outside
    what [read_file] catches: [read_file] raises [FileNotFoundError] for
    every setting of the constants and in both modes. *)
Theorem read_file_missing_raises
  (cfg : config) (st : fs) (name : file_name) (line_by_line : bool)
  (Hmiss : lookup st name = None) :
  file_is_large st name (LARGE_SIZE_FILE cfg) = false
  /\ read_file cfg st name line_by_line = Raise no_such_file.
Proof.
  assert (L : file_is_large st name (LARGE_SIZE_FILE cfg) = false).
  { unfold file_is_large, path_exists. now rewrite Hmiss. }
  split; [exact L|].
  unfold read_file. rewrite L.
  unfold read_line_by_line, read_all, open_text. rewrite Hmiss.
  destruct line_by_line; reflexivity.
Qed.

Lemma read_file_missing (cfg : config) (st : fs) (name : file_name)
  (line_by_line : bool) :
  lookup st name = None ->
  read_file cfg st name line_by_line = Raise no_such_file.
Proof.
  intros Hmiss.
  assert (L : file_is_large st name (LARGE_SIZE_FILE cfg) = false).
  { unfold file_is_large, path_exists. now rewrite Hmiss. }
  unfold read_file. rewrite L.
  unfold read_line_by_line, read_all, open_text. rewrite Hmiss.
  destruct line_by_line; reflexivity.
Qed.

Lemma read_file_missing_raises_witness :
  read_file shipped Examples.indented (Path (py "absent.txt")) false
  = Raise no_such_file.
Proof.
  apply (read_file_missing_raises shipped Examples.indented
           (Path (py "absent.txt")) false eq_refl).
Defined.

Lemma read_file_small (cfg : config) (st : fs) (name : file_name) (f : file)
  (Hf : lookup st name = Some f)
  (Hsmall : st_size f <= LARGE_SIZE_FILE cfg * 1024 * 1024) :
  read_file cfg st name false
  = (if can_read f then
       if ends_cleanly (text f) then Ok (List.concat (good_lines (text f)))
       else Ok (py "Not a text file")
     else Raise permission_denied)
  /\ read_file cfg st name true
     = (if can_read f then
          if ends_cleanly (text f)
          then Ok (join [nl] (map strip (good_lines (text f))))
          else Ok (py "Not a text file")
        else Raise permission_denied).
Proof.
  assert (L : file_is_large st name (LARGE_SIZE_FILE cfg) = false).
  { apply not_true_is_false. intros H. apply file_is_large_iff in H.
    destruct H as [f' [Hf' H]]. rewrite Hf in Hf'. inversion Hf'; subst. lia. }
  unfold read_file. rewrite L.
  unfold read_line_by_line, read_all, open_text. rewrite Hf.
  destruct (can_read f); [|split; reflexivity].
  destruct (ends_cleanly (text f)) eqn:E.
  - rewrite (read_clean _ E), (strip_each_line_clean _ [] E).
    split; reflexivity.
  - destruct (read_broken _ E) as [m1 ->].
    destruct (strip_each_line_broken _ [] E) as [m2 ->].
    split; reflexivity.
Qed.

(** X2. What [read_file] gives for an existing file that is not large: the
    whole text as it is (or its stripped lines joined by newlines, in the
    line-by-line mode) when the file opens and decodes, the sentinel when it
    opens and does not decode, and [PermissionError] when it does not
    open. *)
Theorem read_file_small_outcomes
  (cfg : config) (st : fs) (name : file_name) (f : file)
  (Hf : lookup st name = Some f)
  (Hsmall : st_size f <= LARGE_SIZE_FILE cfg * 1024 * 1024) :
  read_file cfg st name false
  = (if can_read f then
       if ends_cleanly (text f) then Ok (List.concat (good_lines (text f)))
       else Ok (py "Not a text file")
     else Raise permission_denied)
  /\ read_file cfg st name true
     = (if can_read f then
          if ends_cleanly (text f)
          then Ok (join [nl] (map strip (good_lines (text f))))
          else Ok (py "Not a text file")
        else Raise permission_denied).
Proof.
  assert (L : file_is_large st name (LARGE_SIZE_FILE cfg) = false).
  { apply not_true_is_false. intros H. apply file_is_large_iff in H.
    destruct H as [f' [Hf' H]]. rewrite Hf in Hf'. inversion Hf'; subst. lia. }
  unfold read_file. rewrite L.
  unfold read_line_by_line, read_all, open_text. rewrite Hf.
  destruct (can_read f); [|split; reflexivity].
  destruct (ends_cleanly (text f)) eqn:E.
  - rewrite (read_clean _ E), (strip_each_line_clean _ [] E).
    split; reflexivity.
  - destruct (read_broken _ E) as [m1 ->].
    destruct (strip_each_line_broken _ [] E) as [m2 ->].
    split; reflexivity.
Qed.

Lemma read_file_small_outcomes_witness :
  read_file shipped Examples.indented (Path (py "x.txt")) false
  = Ok (py "  a  " ++ [nl] ++ [9%N] ++ py "b" ++ [nl]).
Proof.
  assert (Hsmall : st_size {| st_size := 9; can_read := true;
                              text := Examples.indented_lines |}
                   <= LARGE_SIZE_FILE shipped * 1024 * 1024)
    by (vm_compute; discriminate).
  apply (proj1 (read_file_small_outcomes shipped Examples.indented
                  (Path (py "x.txt")) _ eq_refl Hsmall)).
Defined.

Lemma count_each_line_clean (file : text_stream) (n : Z) :
  ends_cleanly file = true ->
  count_each_line file n = Ok (n + Z.of_nat (List.length (good_lines file))).
Proof.
  revert n. induction file as [|line rest IH|msg]; intros n H.
  - simpl. f_equal. lia.
  - cbn [count_each_line good_lines List.length]. rewrite (IH _ H).
    f_equal. lia.
  - discriminate.
Qed.

Lemma count_each_line_broken (file : text_stream) (n : Z) :
  ends_cleanly file = false ->
  exists msg, count_each_line file n = Raise (Exn UnicodeDecodeError msg).
Proof.
  revert n. induction file as [|line rest IH|msg]; intros n H.
  - discriminate.
  - apply IH. exact H.
  - exists msg. reflexivity.
Qed.

(** X3. [count_lines_in_file] returns the number of lines of a file that opens
    and decodes; when the decoding fails anywhere in the file, also after
    lines that were counted, it returns 0; it raises when the file is
    missing or cannot be opened. *)
Theorem count_lines_in_file_outcomes (st : fs) (name : file_name) :
  count_lines_in_file st name
  = match lookup st name with
    | None => Raise no_such_file
    | Some f =>
        if can_read f then
          Ok (if ends_cleanly (text f)
              then Z.of_nat (List.length (good_lines (text f)))
              else 0)
        else Raise permission_denied
    end.
Proof.
  unfold count_lines_in_file, open_text.
  destruct (lookup st name) as [f|]; [|reflexivity].
  destruct (can_read f); [|reflexivity].
  destruct (ends_cleanly (text f)) eqn:E.
  - rewrite (count_each_line_clean _ 0 E). reflexivity.
  - destruct (count_each_line_broken _ 0 E) as [msg ->]. reflexivity.
Qed.

(* ------------------------------------------------------------------ *)
(** *** [inspect_archive] *)




(* ------------------------------------------------------------------ *)
(** *** [read_archive], in full *)

Lemma with_temps_nil (st : fs) : with_temps st [] = st.
Proof. destruct st. unfold with_temps. simpl. now rewrite app_nil_r. Qed.

Lemma with_temps_app (st : fs) (cs1 cs2 : list str) :
  with_temps (with_temps st cs1) cs2 = with_temps st (cs1 ++ cs2).
Proof.
  unfold with_temps. simpl. now rewrite map_app, app_assoc.
Qed.

Lemma reader_after_nil (r : reader) : reader_after r [] [] = r.
Proof.
  destruct r. unfold reader_after. simpl.
  now rewrite with_temps_nil, app_nil_r.
Qed.

Lemma reader_after_app (r : reader) (b1 b2 c1 c2 : list str) :
  reader_after (reader_after r b1 c1) b2 c2
  = reader_after r (b1 ++ b2) (c1 ++ c2).
Proof.
  unfold reader_after. simpl. now rewrite with_temps_app, app_assoc.
Qed.

Lemma append_exact (part : str) (r : reader) :
  append part r = (Ok tt, reader_after r [part] []).
Proof.
  unfold append, reader_after. now rewrite with_temps_nil.
Qed.

Lemma append_member_after (cfg : config) (label content : str) (r : reader) :
  append_member cfg label content r
  = (Ok tt,
     reader_after r
       [[nl] ++ py "## " ++ label ++ [nl] ++ member_body cfg content ++ [nl]]
       [content]).
Proof. apply append_member_exact. Qed.

Lemma zip_loop_exact (cfg : config) (path : str) (z : zip_archive)
  (r : reader) :
  for_each z (zip_member cfg path) r
  = (Ok tt, reader_after r (map (zip_block cfg path) z) (zip_extracted z)).
Proof.
  revert r. induction z as [|[name extracted] z IH]; intros r.
  - simpl. now rewrite reader_after_nil.
  - cbn [for_each]. unfold bind at 1.
    assert (E : zip_member cfg path (name, extracted) r
                = (Ok tt,
                   reader_after r [zip_block cfg path (name, extracted)]
                     (zip_extracted [(name, extracted)]))).
    { unfold zip_member, try_except, zip_block, zip_extracted.
      cbn [fst snd flat_map]. destruct extracted as [content|e].
      - unfold bind at 1, lift. rewrite append_member_after. reflexivity.
      - unfold bind, lift. rewrite append_exact. reflexivity. }
    rewrite E, IH, reader_after_app. f_equal. f_equal.
    unfold zip_extracted. simpl. now rewrite app_nil_r.
Qed.

Lemma tar_loop_exact (cfg : config) (path : str) (members : list tar_member)
  (r : reader) :
  for_each members (tar_member_step cfg path) r
  = (match tar_failure members with Some e => Raise e | None => Ok tt end,
     reader_after r (tar_blocks cfg path members) (tar_extracted members)).
Proof.
  revert r. induction members as [|m members IH]; intros r.
  - simpl. now rewrite reader_after_nil.
  - cbn [for_each tar_blocks tar_failure tar_extracted].
    set (loop := for_each members (tar_member_step cfg path)) in *.
    unfold bind at 1, tar_member_step.
    destruct (tm_isfile m).
    + unfold bind at 1, lift.
      destruct (tm_extract m) as [[content|]|e].
      * rewrite append_member_after, IH, reader_after_app. reflexivity.
      * unfold ret. apply IH.
      * now rewrite reader_after_nil.
    + unfold ret. apply IH.
Qed.

(** The result of [read_archive] on a classified path, text and file
    system. *)
Lemma read_archive_exact (cfg : config) (st : fs) (path : str)
  (t : archive_type) :
  inspect_archive st path = Ok (Some t) ->
  read_archive cfg path st
  = (Ok (join [nl] (archive_header t path :: archive_parts cfg st path t)),
     with_temps st (extracted st path)).
Proof.
  intros Hi.
  set (start := {| r_fs := st; text_parts := [archive_header t path] |}).
  assert (Hstart : forall blocks contents,
             reader_after start blocks contents
             = {| r_fs := with_temps st contents;
                  text_parts := archive_header t path :: blocks |})
    by reflexivity.
  assert (T : try_except (extract cfg t path)
                (fun e => append (py "[Error reading archive: "
                                  ++ exn_msg e ++ py "]")) start
              = (Ok tt,
                 {| r_fs := with_temps st (extracted st path);
                    text_parts :=
                      archive_header t path :: archive_parts cfg st path t |})).
  { unfold extracted, archive_parts. rewrite Hi. unfold try_except.
    destruct t; unfold extract, bind at 1, lift; cbn [r_fs start].
    - destruct (ZipFile st path) as [z|e].
      + rewrite zip_loop_exact, Hstart. reflexivity.
      + rewrite append_exact, Hstart. reflexivity.
    - destruct (tarfile_getmembers st path) as [members|e].
      + rewrite tar_loop_exact, Hstart.
        destruct (tar_failure members) as [e|].
        * rewrite append_exact. unfold reader_after. cbn [r_fs text_parts].
          rewrite with_temps_nil. reflexivity.
        * now rewrite app_nil_r.
      + rewrite append_exact, Hstart. reflexivity.
    - destruct (opener_read Gz st path) as [content|e].
      + rewrite append_member_after, Hstart. reflexivity.
      + rewrite append_exact, Hstart. reflexivity.
    - destruct (opener_read Bz2 st path) as [content|e].
      + rewrite append_member_after, Hstart. reflexivity.
      + rewrite append_exact, Hstart. reflexivity.
    - destruct (opener_read Xz st path) as [content|e].
      + rewrite append_member_after, Hstart. reflexivity.
      + rewrite append_exact, Hstart. reflexivity. }
  unfold read_archive. rewrite Hi. cbv zeta. fold start. rewrite T.
  reflexivity.
Qed.

(** X5. A zip archive that opens is rendered entry by entry, in the order of
    [namelist()]: the header, then one block for every entry, with the
    content as [read_file] gives it when the entry was extracted and
    ["[Unreadable file]"] when it was not; no entry is left out and one
    temporary file is left for every extracted entry. *)
Theorem read_archive_zip_blocks
  (cfg : config) (st : fs) (path : str) (z : zip_archive)
  (Hi : inspect_archive st path = Ok (Some Zip))
  (Hz : ZipFile st path = Ok z) :
  read_archive cfg path st
  = (Ok (join [nl] (archive_header Zip path :: map (zip_block cfg path) z)),
     with_temps st (zip_extracted z))
  /\ List.length (map (zip_block cfg path) z) = List.length z.
Proof.
  split; [|apply length_map].
  rewrite (read_archive_exact cfg st path Zip Hi).
  unfold archive_parts, extracted. now rewrite Hi, Hz.
Qed.

Lemma read_archive_zip_blocks_witness :
  read_archive shipped (py "pack.zip") Examples.zip_fs
  = (Ok (py "## Archive content of pack.zip (zip)" ++ [nl]
         ++ [nl] ++ py "## pack.zip" ++ arrow ++ py "a.bin" ++ [nl]
         ++ py "[Unreadable file]" ++ [nl]
         ++ [nl]
         ++ [nl] ++ py "## pack.zip" ++ arrow ++ py "b.txt" ++ [nl]
         ++ py "hello" ++ [nl]),
     with_temps Examples.zip_fs [py "hello"]).
Proof.
  destruct (read_archive_zip_blocks shipped Examples.zip_fs (py "pack.zip")
              Examples.zip_entries eq_refl eq_refl) as [H _].
  rewrite H. reflexivity.
Defined.

(** X6. A tar archive whose members can be listed is rendered member by member
    until one fails: the header, a block for every regular member that
    yields a file object, nothing for the other members, and, when a member
    fails, the error line in place of that member and of all the members
    after it.  When no member fails, every regular member with a file
    object has its block. *)
Theorem read_archive_tar_blocks
  (cfg : config) (st : fs) (path : str) (members : list tar_member)
  (Hi : inspect_archive st path = Ok (Some Tar))
  (Hm : tarfile_getmembers st path = Ok members) :
  read_archive cfg path st
  = (Ok (join [nl]
           (archive_header Tar path
            :: tar_blocks cfg path members
               ++ match tar_failure members with
                  | Some e => [error_line e]
                  | None => []
                  end)),
     with_temps st (tar_extracted members))
  /\ (tar_failure members = None ->
      tar_blocks cfg path members
      = flat_map
          (fun m =>
             if tm_isfile m then
               match tm_extract m with
               | Ok (Some content) =>
                   [[nl] ++ py "## " ++ (path ++ arrow ++ tm_name m) ++ [nl]
                    ++ member_body cfg content ++ [nl]]
               | _ => []
               end
             else [])
          members).
Proof.
  split.
  - rewrite (read_archive_exact cfg st path Tar Hi).
    unfold archive_parts, extracted. now rewrite Hi, Hm.
  - clear Hm. induction members as [|m members IH]; intros H; [reflexivity|].
    cbn [tar_blocks tar_failure flat_map] in *.
    destruct (tm_isfile m); [|now apply IH].
    destruct (tm_extract m) as [[content|]|e]; [| |discriminate].
    + simpl. now rewrite IH.
    + simpl. now apply IH.
Qed.

Lemma read_archive_tar_blocks_witness :
  read_archive shipped (py "pack.tar") Examples.tar_fs
  = (Ok (py "## Archive content of pack.tar (tar)" ++ [nl]
         ++ py "[Error reading archive: [Errno 5] Input/output error]"),
     with_temps Examples.tar_fs []).
Proof.
  destruct (read_archive_tar_blocks shipped Examples.tar_fs (py "pack.tar")
              Examples.tar_members eq_refl eq_refl) as [H _].
  rewrite H. reflexivity.
Defined.

(** X7. A file classified by its name as gz, bz2 or xz that decompresses is
    rendered as the header and one block labelled
    ["<path> (decompressed)"]; one temporary file is left. *)
Theorem read_archive_stream_block
  (cfg : config) (st : fs) (path : str) (t : archive_type) (content : str)
  (Hi : inspect_archive st path = Ok (Some t))
  (Ht : t <> Zip /\ t <> Tar)
  (Hc : opener_read t st path = Ok content) :
  read_archive cfg path st
  = (Ok (archive_header t path ++ [nl]
         ++ [nl] ++ py "## " ++ path ++ py " (decompressed)" ++ [nl]
         ++ member_body cfg content ++ [nl]),
     with_temps st [content]).
Proof.
  rewrite (read_archive_exact cfg st path t Hi).
  unfold archive_parts, extracted. rewrite Hi.
  destruct Ht as [Hz Ht].
  destruct t; try congruence; rewrite Hc; cbn [join];
    now rewrite <- !app_assoc.
Qed.

Lemma read_archive_stream_block_witness :
  read_archive shipped (py "notes.gz") Runs.gz_fs
  = (Ok (py "## Archive content of notes.gz (gz)" ++ [nl]
         ++ [nl] ++ py "## notes.gz (decompressed)" ++ [nl]
         ++ py "hello" ++ [nl] ++ [nl]),
     with_temps Runs.gz_fs [py "hello" ++ [nl]]).
Proof.
  assert (Ht : Gz <> Zip /\ Gz <> Tar) by (split; discriminate).
  rewrite (read_archive_stream_block shipped Runs.gz_fs (py "notes.gz") Gz
             (py "hello" ++ [nl]) eq_refl Ht eq_refl).
  reflexivity.
Defined.

(* ------------------------------------------------------------------ *)
(** *** Members are shown as they are *)

Lemma concat_lines_of (s : str) : List.concat (lines_of s) = s.
Proof.
  induction s as [|c s IH]; [reflexivity|].
  cbn [lines_of]. destruct (N.eqb c nl).
  - cbn [List.concat app]. now rewrite IH.
  - destruct (lines_of s) as [|l ls].
    + simpl in IH. subst s. reflexivity.
    + cbn [List.concat app] in *. now rewrite IH.
Qed.

Lemma universal_newlines_no_cr (s : str) :
  ~ In cr s -> universal_newlines s = s.
Proof.
  induction s as [|c s IH]; intros H; [reflexivity|].
  cbn [universal_newlines].
  destruct (N.eqb_spec c cr) as [->|_].
  - exfalso. apply H. now left.
  - rewrite IH; [reflexivity|]. intros Hin. apply H. now right.
Qed.

(** X8. The round trip through the temporary file: a member whose text, written
    in UTF-8, is not above the threshold comes back from [read_file] as it
    was written, but for the line ends, which are all turned into ["\n"]; a
    text without carriage returns comes back unchanged. *)
Theorem member_body_round_trip (cfg : config) (content : str)
  (Hsmall : encoded_size content <= LARGE_SIZE_FILE cfg * 1024 * 1024) :
  member_body cfg content = universal_newlines content
  /\ (~ In cr content -> member_body cfg content = content).
Proof.
  assert (E : member_body cfg content = universal_newlines content).
  { unfold member_body.
    destruct (read_file_small cfg
                {| disk := fun _ => None; temps := [written_file content] |}
                (TempName 0) (written_file content) eq_refl Hsmall)
      as [-> _].
    cbn [can_read written_file text].
    rewrite ends_cleanly_of_list, good_lines_of_list, concat_lines_of.
    reflexivity. }
  split; [exact E|].
  intros H. rewrite E. now apply universal_newlines_no_cr.
Qed.

Lemma member_body_round_trip_witness :
  member_body shipped (py "a" ++ [cr; nl] ++ py "b" ++ [cr])
  = py "a" ++ [nl] ++ py "b" ++ [nl].
Proof.
  assert (Hsmall : encoded_size (py "a" ++ [cr; nl] ++ py "b" ++ [cr])
                   <= LARGE_SIZE_FILE shipped * 1024 * 1024)
    by (vm_compute; discriminate).
  rewrite (proj1 (member_body_round_trip shipped _ Hsmall)). reflexivity.
Defined.

(* ------------------------------------------------------------------ *)
(** *** [read_archive] as a whole *)




Lemma archive_parts_disk (cfg : config) (st st' : fs) (path : str)
  (t : archive_type) :
  disk st' = disk st ->
  archive_parts cfg st' path t = archive_parts cfg st path t.
Proof.
  intros D.
  unfold archive_parts, ZipFile, tarfile_getmembers, opener_read, on_disk.
  now rewrite D.
Qed.

Lemma read_archive_fst_disk (cfg : config) (st st' : fs) (path : str) :
  disk st' = disk st ->
  fst (read_archive cfg path st') = fst (read_archive cfg path st).
Proof.
  intros Hd. pose proof (inspect_archive_disk st st' path Hd) as Hi.
  destruct (inspect_archive st path) as [[t|]|e] eqn:E.
  - rewrite (read_archive_exact cfg st path t E).
    rewrite (read_archive_exact cfg st' path t Hi). cbn [fst].
    now rewrite (archive_parts_disk cfg st st' path t Hd).
  - unfold read_archive. now rewrite Hi, E.
  - unfold read_archive. now rewrite Hi, E.
Qed.

(** X10. What [read_archive] returns depends on the directory only: temporary
    files left by earlier calls do not change the text. *)
Theorem read_archive_text_ignores_temps
  (cfg : config) (st st' : fs) (path : str)
  (Hd : disk st' = disk st) :
  fst (read_archive cfg path st') = fst (read_archive cfg path st).
Proof.
  pose proof (inspect_archive_disk st st' path Hd) as Hi.
  destruct (inspect_archive st path) as [[t|]|e] eqn:E.
  - rewrite (read_archive_exact cfg st path t E).
    rewrite (read_archive_exact cfg st' path t Hi). cbn [fst].
    now rewrite (archive_parts_disk cfg st st' path t Hd).
  - unfold read_archive. now rewrite Hi, E.
  - unfold read_archive. now rewrite Hi, E.
Qed.

Lemma read_archive_text_ignores_temps_witness :
  fst (read_archive shipped (py "pack.zip") Examples.zip_fs_later)
  = fst (read_archive shipped (py "pack.zip") Examples.zip_fs).
Proof.
  apply (read_archive_text_ignores_temps shipped Examples.zip_fs
           Examples.zip_fs_later (py "pack.zip") eq_refl).
Defined.

(* ------------------------------------------------------------------ *)
(** *** The tree is a tree of dictionaries *)

Lemma unique_names_node (kids : list (str * tree)) :
  unique_names (Node kids)
  <-> NoDup (map fst kids)
      /\ Forall (fun kv : str * tree => unique_names (snd kv)) kids.
Proof.
  cbn [unique_names].
  assert (E : fold_right
                (fun (kv : str * tree) rest =>
                   let '(_, subtree) := kv in unique_names subtree /\ rest)
                True kids
              <-> Forall (fun kv : str * tree => unique_names (snd kv)) kids).
  { induction kids as [|[name subtree] kids IH]; simpl.
    - split; auto.
    - rewrite IH. split.
      + intros [H1 H2]. now constructor.
      + intros H. inversion H; subst. auto. }
  now rewrite E.
Qed.

Lemma assoc_In (k : str) (items : list (str * tree)) (subtree : tree) :
  assoc k items = Some subtree -> In (k, subtree) items.
Proof.
  induction items as [|[name s] items IH]; simpl; [discriminate|].
  destruct (str_eqb name k) eqn:E.
  - apply str_eqb_eq in E. subst. intros H. inversion H. now left.
  - intros H. right. now apply IH.
Qed.

Lemma assoc_None (k : str) (items : list (str * tree)) :
  assoc k items = None <-> ~ In k (map fst items).
Proof.
  induction items as [|[name s] items IH]; simpl.
  - split; auto.
  - destruct (str_eqb name k) eqn:E.
    + apply str_eqb_eq in E. subst. split; [discriminate|].
      intros H. exfalso. apply H. now left.
    + rewrite IH. split.
      * intros H [->|Hin]; [|now apply H].
        rewrite (proj2 (str_eqb_eq k k) eq_refl) in E. discriminate.
      * intros H Hin. apply H. now right.
Qed.

Lemma In_assoc (k : str) (items : list (str * tree)) (subtree : tree) :
  NoDup (map fst items) -> In (k, subtree) items ->
  assoc k items = Some subtree.
Proof.
  induction items as [|[name s] items IH]; simpl; [intros _ []|].
  intros Hnd [H|H].
  - inversion H; subst. now rewrite (proj2 (str_eqb_eq k k) eq_refl).
  - inversion Hnd; subst. destruct (str_eqb name k) eqn:E.
    + apply str_eqb_eq in E. subst. exfalso. apply H2.
      apply (in_map fst) in H. exact H.
    + now apply IH.
Qed.

(** The keys after [setdefault]: the same keys when the key was there, one
    more at the end when it was not. *)
Lemma setdefault_then_keys (part : str) (f : tree -> tree)
  (items : list (str * tree)) :
  map fst (setdefault_then part f items)
  = match assoc part items with
    | Some _ => map fst items
    | None => map fst items ++ [part]
    end.
Proof.
  induction items as [|[name s] items IH]; [reflexivity|].
  cbn [setdefault_then assoc]. destruct (str_eqb name part); [reflexivity|].
  cbn [map fst]. rewrite IH. destruct (assoc part items); reflexivity.
Qed.

Lemma setdefault_then_Forall (P : tree -> Prop) (part : str)
  (f : tree -> tree) (items : list (str * tree)) :
  (forall subtree, P subtree -> P (f subtree)) -> P (Node []) ->
  Forall (fun kv : str * tree => P (snd kv)) items ->
  Forall (fun kv : str * tree => P (snd kv)) (setdefault_then part f items).
Proof.
  intros Hf H0. induction items as [|[name s] items IH]; intros H.
  - constructor; [apply Hf, H0 | constructor].
  - inversion H; subst. cbn [setdefault_then]. cbn [snd] in *.
    destruct (str_eqb name part); constructor; cbn [snd]; auto.
Qed.

Lemma unique_names_insert (parts : list str) (d : tree) :
  unique_names d -> unique_names (insert_parts parts d).
Proof.
  revert d. induction parts as [|part parts IH]; intros [kids] H; [exact H|].
  cbn [insert_parts items_of]. apply unique_names_node in H.
  destruct H as [Hnd Hall]. apply unique_names_node. split.
  - rewrite setdefault_then_keys.
    destruct (assoc part kids) eqn:E; [exact Hnd|].
    apply assoc_None in E.
    apply NoDup_rev in Hnd. rewrite <- (rev_involutive (map fst kids ++ [part])).
    apply NoDup_rev. rewrite rev_app_distr. simpl.
    constructor; [|exact Hnd]. intros Hin. apply E. now apply in_rev.
  - apply setdefault_then_Forall; [apply IH | | exact Hall].
    apply unique_names_node. split; constructor.
Qed.

Lemma unique_names_build (paths : list str) : unique_names (build_tree paths).
Proof.
  unfold build_tree.
  assert (G : forall d, unique_names d ->
            unique_names
              (fold_left
                 (fun tree path =>
                    insert_parts (split slash (strip_slash path)) tree)
                 paths d)).
  { induction paths as [|path paths IH]; intros d Hd; [exact Hd|].
    simpl. apply IH. now apply unique_names_insert. }
  apply G. apply unique_names_node. split; constructor.
Qed.

Lemma unique_names_subtree (parts : list str) (d subtree : tree) :
  unique_names d -> subtree_at parts d = Some subtree ->
  unique_names subtree.
Proof.
  revert d. induction parts as [|part parts IH]; intros [kids] H E.
  - simpl in E. inversion E; subst. exact H.
  - cbn [subtree_at items_of] in E.
    destruct (assoc part kids) as [s|] eqn:Ea; [|discriminate].
    apply (IH s); [|exact E].
    apply unique_names_node in H. destruct H as [_ Hall].
    rewrite Forall_forall in Hall. apply (Hall (part, s)).
    now apply assoc_In.
Qed.

(** With distinct names, the sorted items are in strictly increasing
    order. *)
Lemma sorted_strict {V} (l : list (str * V)) :
  Sorted by_name l -> NoDup (map fst l) ->
  Sorted (fun x y : str * V => lex_le (fst x) (fst y) /\ fst x <> fst y) l.
Proof.
  induction 1 as [|x l Hs IH Hhd]; intros Hnd; constructor.
  - apply IH. now inversion Hnd.
  - destruct Hhd as [|y l Hxy]; constructor. split; [exact Hxy|].
    intros E. inversion Hnd; subst. apply H1. simpl. now left.
Qed.

(** X11. The tree that [paths_as_tree] builds never has a name twice in one
    dictionary, however often a directory occurs in the paths, and the
    listing takes the entries of every dictionary in strictly increasing
    order of their names. *)
Theorem build_tree_unique_siblings
  (paths parts : list str) (subtree : tree)
  (Hsub : subtree_at parts (build_tree paths) = Some subtree) :
  NoDup (map fst (items_of subtree))
  /\ Sorted (fun x y : str * tree =>
               lex_le (fst x) (fst y) /\ fst x <> fst y)
            (sorted (items_of subtree)).
Proof.
  pose proof (unique_names_subtree parts _ _ (unique_names_build paths) Hsub)
    as Hu.
  destruct subtree as [kids]. apply unique_names_node in Hu.
  destruct Hu as [Hnd _]. split; [exact Hnd|].
  apply sorted_strict; [apply sorted_Sorted|].
  apply (Permutation_NoDup (l := map fst kids)); [|exact Hnd].
  apply Permutation_map. symmetry. apply sorted_perm.
Qed.

Lemma build_tree_unique_siblings_witness :
  NoDup (map fst (items_of (build_tree [py "a/b.txt"; py "a/c.txt"; py "d.txt"]))).
Proof.
  apply (build_tree_unique_siblings
           [py "a/b.txt"; py "a/c.txt"; py "d.txt"] []
           (build_tree [py "a/b.txt"; py "a/c.txt"; py "d.txt"]) eq_refl).
Defined.

(* ------------------------------------------------------------------ *)
(** *** Directories are the entries with something below *)

Lemma present_snoc (parts : list str) (k : str) (d : tree) :
  present (parts ++ [k]) d
  <-> exists subtree, subtree_at parts d = Some subtree
                      /\ assoc k (items_of subtree) <> None.
Proof.
  unfold present. revert d.
  induction parts as [|part parts IH]; intros d.
  - cbn [app subtree_at]. split.
    + intros H. exists d. split; [reflexivity|].
      destruct (assoc k (items_of d)); [discriminate | congruence].
    + intros [s [E H]]. inversion E; subst.
      destruct (assoc k (items_of s)); [discriminate | congruence].
  - cbn [app subtree_at]. destruct (assoc part (items_of d)) as [s|].
    + apply IH.
    + split; [congruence|]. intros [s [E _]]. discriminate.
Qed.

Lemma bool_of_dict_key (d : tree) :
  bool_of_dict d = true <-> exists k, assoc k (items_of d) <> None.
Proof.
  destruct d as [[|[name s] kids]]; simpl.
  - split; [discriminate | intros [k H]; congruence].
  - split; [|reflexivity]. intros _. exists name.
    rewrite (proj2 (str_eqb_eq name name) eq_refl). discriminate.
Qed.

(** X12. An entry of the built tree is a directory exactly when some path goes
    on below it.  So a path that is given and is also the beginning of a
    longer path is listed once, as a directory. *)
Theorem build_tree_directory_iff_continued
  (paths parts : list str) (subtree : tree)
  (Hsub : subtree_at parts (build_tree paths) = Some subtree) :
  bool_of_dict subtree = true
  <-> exists path part rest,
        In path paths /\ segments path = parts ++ part :: rest.
Proof.
  rewrite bool_of_dict_key. split.
  - intros [k Hk].
    assert (P : present (parts ++ [k]) (build_tree paths)).
    { apply present_snoc. exists subtree. auto. }
    unfold build_tree in P.
    change (fun tree path => insert_parts (split slash (strip_slash path)) tree)
      with (fun tree path => insert_parts (segments path) tree) in P.
    apply present_fold in P. destruct P as [P|[path [Hin [rest E]]]].
    + apply present_empty in P. destruct parts; discriminate.
    + exists path, k, rest. split; [exact Hin|].
      rewrite E, <- app_assoc. reflexivity.
  - intros [path [part [rest [Hin E]]]].
    assert (P : present (parts ++ [part]) (build_tree paths)).
    { unfold build_tree.
      change (fun tree path => insert_parts (split slash (strip_slash path)) tree)
        with (fun tree path => insert_parts (segments path) tree).
      apply present_fold. right. exists path. split; [exact Hin|].
      exists rest. rewrite E, <- app_assoc. reflexivity. }
    apply present_snoc in P. destruct P as [s [Es Hk]].
    rewrite Hsub in Es. inversion Es; subst. exists part. exact Hk.
Qed.

(** With the paths ["a"] and ["a/b"], the entry [a] is a directory. *)
Lemma build_tree_directory_iff_continued_witness :
  exists subtree,
    subtree_at [py "a"] (build_tree [py "a"; py "a/b"]) = Some subtree
    /\ bool_of_dict subtree = true.
Proof.
  eexists. split; [reflexivity|].
  apply (proj2 (build_tree_directory_iff_continued
                  [py "a"; py "a/b"] [py "a"] _ eq_refl)).
  exists (py "a/b"), (py "b"), []. split; [right; now left | reflexivity].
Defined.

(* ------------------------------------------------------------------ *)
(** *** The counts add up *)

Lemma preorder_length (d : tree) :
  Z.of_nat (List.length (preorder d)) = count_dirs d + count_files d.
Proof.
  induction d as [kids IH] using tree_induction.
  rewrite preorder_unfold, count_dirs_unfold, count_files_unfold.
  rewrite <- (total_perm _ _ (Permutation_map dirs_of (sorted_perm kids))).
  rewrite <- (total_perm _ _ (Permutation_map files_of (sorted_perm kids))).
  assert (IHs : Forall (fun kv : str * tree =>
                          Z.of_nat (List.length (preorder (snd kv)))
                          = count_dirs (snd kv) + count_files (snd kv))
                  (sorted kids)).
  { eapply Permutation_Forall; [|exact IH]. symmetry. apply sorted_perm. }
  induction IHs as [|[name s] l Hs _ IHl]; [reflexivity|].
  cbn [flat_map map]. rewrite length_app. cbn [List.length].
  unfold total in *. cbn [fold_right]. unfold dirs_of at 1, files_of at 1.
  cbn [snd] in *. destruct (bool_of_dict s); lia.
Qed.

(** X13. Every entry of the listing is counted once, as a directory or as a
    file: the number of lines that [_print_tree] returns is the sum of the
    two counts of the summary line. *)
Theorem listing_lines_are_counted (paths : list str) :
  let printed := _print_tree (build_tree paths) [] (0, 0) in
  Z.of_nat (List.length (fst printed)) = fst (snd printed) + snd (snd printed)
  /\ 0 <= fst (snd printed) /\ 0 <= snd (snd printed).
Proof.
  intros printed.
  destruct (_print_tree_prints_well (build_tree paths) [] (0, 0))
    as [Hlines Hcount].
  fold printed in Hlines, Hcount. rewrite Hcount. cbn [fst snd].
  rewrite (Forall2_length Hlines), preorder_length.
  split; [lia|].
  assert (G : forall d, 0 <= count_dirs d /\ 0 <= count_files d).
  { induction d as [kids IH] using tree_induction.
    rewrite count_dirs_unfold, count_files_unfold.
    induction IH as [|[name s] l Hs _ IHl]; [split; reflexivity|].
    unfold total in *. cbn [map fold_right].
    unfold dirs_of at 1, files_of at 1. cbn [snd] in *.
    destruct (bool_of_dict s); lia. }
  apply G.
Qed.

(* ------------------------------------------------------------------ *)
(** *** Separators around a path *)

Lemma lstrip_by_app (p : char -> bool) (s t : str) :
  lstrip_by p (s ++ t)
  = match lstrip_by p s with
    | [] => lstrip_by p t
    | _ :: _ => lstrip_by p s ++ t
    end.
Proof.
  induction s as [|c s IH]; simpl.
  - destruct (lstrip_by p t); reflexivity.
  - destruct (p c); [exact IH | reflexivity].
Qed.

Lemma rstrip_by_snoc (p : char -> bool) (s : str) (c : char) :
  p c = true -> rstrip_by p (s ++ [c]) = rstrip_by p s.
Proof.
  intros H. unfold rstrip_by. rewrite rev_app_distr. simpl. now rewrite H.
Qed.

Lemma strip_by_around (p : char -> bool) (s : str) (c : char) :
  p c = true ->
  strip_by p (c :: s) = strip_by p s /\ strip_by p (s ++ [c]) = strip_by p s.
Proof.
  intros H. unfold strip_by. split.
  - simpl. now rewrite H.
  - rewrite lstrip_by_app. simpl. rewrite H.
    destruct (lstrip_by p s) as [|x l] eqn:E; [reflexivity|].
    rewrite <- E. now apply rstrip_by_snoc.
Qed.

(** X14. Separators at the two ends of a path do not count: a path with ["/"]
    in front or behind has the segments of the path without, and the listing
    of paths given with such separators is the listing of the paths
    without. *)
Theorem paths_as_tree_ignores_outer_slashes :
  (forall path,
      segments (slash :: path) = segments path
      /\ segments (path ++ [slash]) = segments path)
  /\ (forall paths,
         paths_as_tree (map (fun path => slash :: path ++ [slash]) paths)
         = paths_as_tree paths).
Proof.
  assert (S : forall path,
             segments (slash :: path) = segments path
             /\ segments (path ++ [slash]) = segments path).
  { intros path. unfold segments, strip_slash.
    destruct (strip_by_around (N.eqb slash) path slash (N.eqb_refl slash))
      as [-> ->].
    split; reflexivity. }
  split; [exact S|].
  intros paths. unfold paths_as_tree, build_tree.
  change (fun tree path => insert_parts (split slash (strip_slash path)) tree)
    with (fun tree path => insert_parts (segments path) tree).
  assert (G : forall d,
             fold_left (fun tree path => insert_parts (segments path) tree)
               (map (fun path => slash :: path ++ [slash]) paths) d
             = fold_left (fun tree path => insert_parts (segments path) tree)
                 paths d).
  { induction paths as [|path paths IH]; intros d; [reflexivity|].
    cbn [map fold_left]. rewrite IH.
    destruct (S (path ++ [slash])) as [-> _].
    destruct (S path) as [_ ->]. reflexivity. }
  now rewrite G.
Qed.

(* ------------------------------------------------------------------ *)
(** *** The listing depends on the set of paths only *)

Lemma lex_le_trans (a b c : str) : lex_le a b -> lex_le b c -> lex_le a c.
Proof.
  intros H. revert c. induction H as [b|x y a b Hxy|x a b Hab IH]; intros c Hc.
  - constructor.
  - inversion Hc; subst; apply lex_le_lt; lia.
  - inversion Hc; subst.
    + now apply lex_le_lt.
    + apply lex_le_eq. now apply IH.
Qed.

Lemma lex_le_antisym (a b : str) : lex_le a b -> lex_le b a -> a = b.
Proof.
  induction 1 as [b|x y a b Hxy|x a b Hab IH]; intros H.
  - now inversion H.
  - inversion H; subst; lia.
  - inversion H; subst; [lia|]. f_equal. now apply IH.
Qed.

Lemma sorted_of_Sorted {V} (l : list (str * V)) :
  Sorted by_name l -> sorted l = l.
Proof.
  induction 1 as [|x l Hs IH Hhd]; [reflexivity|].
  cbn [sorted]. rewrite IH. destruct Hhd as [|y l Hxy]; [reflexivity|].
  cbn [insert_sorted]. unfold by_name in Hxy. apply str_leb_spec in Hxy.
  now rewrite Hxy.
Qed.

(** Two sorted lists with the same items, no name twice, are one list. *)
Lemma Sorted_unique {V} (a b : list (str * V)) :
  Sorted by_name a -> Sorted by_name b ->
  NoDup (map fst a) -> Permutation a b -> a = b.
Proof.
  intros Ha Hb.
  assert (T : Relations_1.Transitive (@by_name V)).
  { intros x y z. unfold by_name. apply lex_le_trans. }
  apply (Sorted_StronglySorted T) in Ha.
  apply (Sorted_StronglySorted T) in Hb. clear T.
  revert b Hb. induction Ha as [|x a Ha IH Hx]; intros b Hb Hnd Hp.
  - apply Permutation_nil in Hp. now subst.
  - destruct Hb as [|y b Hb Hy].
    + apply Permutation_sym, Permutation_nil in Hp. discriminate.
    + assert (Hxy : fst x = fst y).
      { assert (Iy : In y (x :: a))
          by (apply (Permutation_in _ (Permutation_sym Hp)); now left).
        assert (Ix : In x (y :: b))
          by (apply (Permutation_in _ Hp); now left).
        destruct Iy as [->|Iy]; [reflexivity|].
        destruct Ix as [->|Ix]; [reflexivity|].
        rewrite Forall_forall in Hx, Hy.
        apply lex_le_antisym; [apply (Hx _ Iy) | apply (Hy _ Ix)]. }
      assert (E : x = y).
      { assert (Iy : In y (x :: a))
          by (apply (Permutation_in _ (Permutation_sym Hp)); now left).
        destruct Iy as [->|Iy]; [reflexivity|].
        exfalso. inversion Hnd; subst. apply H1. rewrite Hxy.
        now apply in_map. }
      subst y. f_equal. apply IH.
      * exact Hb.
      * now inversion Hnd.
      * now apply Permutation_cons_inv in Hp.
Qed.

Lemma sorted_unique {V} (l1 l2 : list (str * V)) :
  NoDup (map fst l1) -> Permutation l1 l2 -> sorted l1 = sorted l2.
Proof.
  intros Hnd Hp. apply Sorted_unique.
  - apply sorted_Sorted.
  - apply sorted_Sorted.
  - apply (Permutation_NoDup (l := map fst l1)); [|exact Hnd].
    apply Permutation_map. symmetry. apply sorted_perm.
  - rewrite (sorted_perm l1), Hp. symmetry. apply sorted_perm.
Qed.

Lemma canonical_unfold (kids : list (str * tree)) :
  canonical (Node kids) = Node (map canonical_item (sorted kids)).
Proof.
  cbn [canonical]. f_equal.
  rewrite <- (sorted_map canonical_item kids) by reflexivity.
  f_equal. apply map_ext. now intros [name subtree].
Qed.

Lemma bool_of_dict_canonical (d : tree) :
  bool_of_dict (canonical d) = bool_of_dict d.
Proof.
  destruct d as [kids]. rewrite canonical_unfold.
  pose proof (Permutation_length (sorted_perm kids)) as L.
  destruct kids as [|kv kids]; [reflexivity|].
  destruct (sorted (kv :: kids)); [discriminate | reflexivity].
Qed.

Lemma print_items_canonical (n : nat) (prefix : str)
  (items : list (str * tree)) :
  Forall (fun kv : str * tree =>
            forall prefix c,
              _print_tree (canonical (snd kv)) prefix c
              = _print_tree (snd kv) prefix c) items ->
  forall i lines c,
    print_items n i (map (with_below _print_tree) (map canonical_item items))
      prefix lines c
    = print_items n i (map (with_below _print_tree) items) prefix lines c.
Proof.
  induction 1 as [|[name s] items Hs _ IH]; intros i lines c; [reflexivity|].
  cbn [map].
  change (with_below _print_tree (canonical_item (name, s)))
    with (name, (canonical s, _print_tree (canonical s))).
  change (with_below _print_tree (name, s)) with (name, (s, _print_tree s)).
  rewrite !print_items_cons. cbv zeta. cbn [snd] in Hs.
  rewrite bool_of_dict_canonical, Hs. apply IH.
Qed.

(** Printing does not see the order in which the keys were inserted. *)
Lemma _print_tree_canonical (d : tree) (prefix : str) (c : counters) :
  _print_tree (canonical d) prefix c = _print_tree d prefix c.
Proof.
  revert prefix c. induction d as [kids IH] using tree_induction.
  intros prefix c.
  rewrite canonical_unfold, !_print_tree_unfold.
  rewrite (sorted_map canonical_item (sorted kids)) by reflexivity.
  rewrite (sorted_of_Sorted (sorted kids) (sorted_Sorted kids)).
  rewrite length_map, (Permutation_length (sorted_perm kids)).
  apply print_items_canonical.
  eapply Permutation_Forall; [|exact IH]. symmetry. apply sorted_perm.
Qed.

Lemma present_cons (k : str) (parts : list str) (d subtree : tree) :
  assoc k (items_of d) = Some subtree ->
  (present (k :: parts) d <-> present parts subtree).
Proof. intros E. unfold present. cbn [subtree_at]. now rewrite E. Qed.

Lemma present_key (k : str) (d : tree) :
  present [k] d <-> exists subtree, assoc k (items_of d) = Some subtree.
Proof.
  unfold present. cbn [subtree_at].
  destruct (assoc k (items_of d)) as [s|].
  - split; [intros _; now exists s | discriminate].
  - split; [congruence | intros [s H]; discriminate].
Qed.

(** Two trees without repeated keys that hold the same chains of keys have
    the same sorted form. *)
Lemma canonical_by_presence (d1 : tree) :
  unique_names d1 ->
  forall d2, unique_names d2 ->
  (forall parts, present parts d1 <-> present parts d2) ->
  canonical d1 = canonical d2.
Proof.
  induction d1 as [k1 IH] using tree_induction.
  intros U1 [k2] U2 Hp.
  apply unique_names_node in U1. destruct U1 as [N1 A1].
  apply unique_names_node in U2. destruct U2 as [N2 A2].
  assert (Sub : forall k s1 s2,
             In (k, s1) k1 -> In (k, s2) k2 -> canonical s1 = canonical s2).
  { intros k s1 s2 I1 I2.
    rewrite Forall_forall in IH, A1, A2.
    apply (IH _ I1 (A1 _ I1) s2 (A2 _ I2)).
    intros parts.
    rewrite <- (present_cons k parts (Node k1) s1) by now apply In_assoc.
    rewrite <- (present_cons k parts (Node k2) s2) by now apply In_assoc.
    apply Hp. }
  rewrite !canonical_unfold. f_equal.
  rewrite <- !(sorted_map canonical_item) by reflexivity.
  apply sorted_unique.
  - rewrite map_map. exact N1.
  - apply NoDup_Permutation.
    + apply (NoDup_map_inv fst). rewrite map_map. exact N1.
    + apply (NoDup_map_inv fst). rewrite map_map. exact N2.
    + intros [k v]. rewrite !in_map_iff. split.
      * intros [[k' s1] [E I1]]. inversion E; subst.
        assert (P : present [k] (Node k2)).
        { apply Hp, present_key. exists s1. now apply In_assoc. }
        apply present_key in P. destruct P as [s2 E2].
        apply assoc_In in E2. exists (k, s2). split; [|exact E2].
        unfold canonical_item. cbn [fst snd]. f_equal. symmetry.
        now apply (Sub k).
      * intros [[k' s2] [E I2]]. inversion E; subst.
        assert (P : present [k] (Node k1)).
        { apply Hp, present_key. exists s2. now apply In_assoc. }
        apply present_key in P. destruct P as [s1 E1].
        apply assoc_In in E1. exists (k, s1). split; [|exact E1].
        unfold canonical_item. cbn [fst snd]. f_equal.
        now apply (Sub k).
Qed.

Lemma present_build (paths parts : list str) :
  present parts (build_tree paths)
  <-> parts = []
      \/ exists path, In path paths /\ prefix_of parts (segments path).
Proof.
  unfold build_tree.
  change (fun tree path => insert_parts (split slash (strip_slash path)) tree)
    with (fun tree path => insert_parts (segments path) tree).
  now rewrite present_fold, present_empty.
Qed.

(** Path lists with the same beginnings of segment lists have the same
    listing. *)
Lemma paths_as_tree_by_prefixes (paths paths' : list str) :
  (forall parts,
      (exists path, In path paths /\ prefix_of parts (segments path))
      <-> (exists path, In path paths' /\ prefix_of parts (segments path))) ->
  paths_as_tree paths = paths_as_tree paths'.
Proof.
  intros H. unfold paths_as_tree.
  rewrite <- (_print_tree_canonical (build_tree paths)).
  rewrite <- (_print_tree_canonical (build_tree paths')).
  rewrite (canonical_by_presence (build_tree paths)
             (unique_names_build paths) (build_tree paths')
             (unique_names_build paths')); [reflexivity|].
  intros parts. rewrite !present_build, H. reflexivity.
Qed.

(** X15. The listing depends on which paths are given, not on their order nor on
    how often each is given. *)
Theorem paths_as_tree_order_independent (paths paths' : list str)
  (Hsame : forall path, In path paths <-> In path paths') :
  paths_as_tree paths = paths_as_tree paths'.
Proof.
  apply paths_as_tree_by_prefixes. intros parts.
  split; intros [path [Hin Hp]]; exists path; split; auto; now apply Hsame.
Qed.

Lemma paths_as_tree_order_independent_witness :
  paths_as_tree [py "d.txt"; py "a/c.txt"; py "a/b.txt"; py "d.txt"]
  = paths_as_tree [py "a/b.txt"; py "a/c.txt"; py "d.txt"].
Proof.
  apply paths_as_tree_order_independent. intros path. simpl. tauto.
Defined.

(** X16. A path that is the beginning of another given path adds nothing to the
    listing: a directory given by itself next to a file in it, or a path
    given twice, shows as if it had been left out. *)
Theorem paths_as_tree_absorbs_prefixes
  (before after : list str) (q p : str)
  (Hin : In p (before ++ after))
  (Hpre : prefix_of (segments q) (segments p)) :
  paths_as_tree (before ++ q :: after) = paths_as_tree (before ++ after).
Proof.
  apply paths_as_tree_by_prefixes. intros parts. split.
  - intros [path [Hpath Hp]]. apply in_app_or in Hpath.
    destruct Hpath as [Hb|[<-|Ha]].
    + exists path. split; [apply in_or_app; now left | exact Hp].
    + exists p. split; [exact Hin|].
      destruct Hp as [r1 E1], Hpre as [r2 E2].
      exists (r1 ++ r2). rewrite E2, E1, <- app_assoc. reflexivity.
    + exists path. split; [apply in_or_app; now right | exact Hp].
  - intros [path [Hpath Hp]]. exists path. split; [|exact Hp].
    apply in_app_or in Hpath. apply in_or_app.
    destruct Hpath; [now left | right; now right].
Qed.

Lemma paths_as_tree_absorbs_prefixes_witness :
  paths_as_tree ([] ++ py "a" :: [py "a/b"]) = paths_as_tree ([] ++ [py "a/b"]).
Proof.
  apply (paths_as_tree_absorbs_prefixes [] [py "a/b"] (py "a") (py "a/b")).
  - now left.
  - exists [py "b"]. reflexivity.
Defined.

(* ------------------------------------------------------------------ *)
(** *** [ignores_apply], composed *)

(** X17. Filtering composes: ignoring two lists of strings at once is ignoring
    one after the other, in either order; filtering twice by the same list
    changes nothing more; an empty list of ignore strings keeps everything,
    and an empty ignore string removes everything. *)
Theorem ignores_apply_composes :
  (forall i1 i2 targets,
      ignores_apply (i1 ++ i2) targets
      = ignores_apply i1 (ignores_apply i2 targets)
      /\ ignores_apply (i1 ++ i2) targets
         = ignores_apply i2 (ignores_apply i1 targets))
  /\ (forall ignores targets,
         ignores_apply ignores (ignores_apply ignores targets)
         = ignores_apply ignores targets)
  /\ (forall targets, ignores_apply [] targets = targets)
  /\ (forall ignores targets, In [] ignores -> ignores_apply ignores targets = []).
Proof.
  assert (K : forall i1 i2 targets,
             ignores_apply (i1 ++ i2) targets
             = ignores_apply i1 (ignores_apply i2 targets)
             /\ ignores_apply (i1 ++ i2) targets
                = ignores_apply i2 (ignores_apply i1 targets)).
  { intros i1 i2 targets. unfold ignores_apply.
    induction targets as [|t targets [IH1 IH2]]; [split; reflexivity|].
    cbn [filter]. rewrite existsb_app.
    destruct (existsb (fun ex => contains ex t) i1) eqn:E1;
      destruct (existsb (fun ex => contains ex t) i2) eqn:E2;
      cbn [negb orb filter]; rewrite ?E1, ?E2; cbn [negb];
      split; congruence. }
  split; [exact K|]. split; [|split].
  - intros ignores targets. unfold ignores_apply.
    induction targets as [|t targets IH]; [reflexivity|].
    cbn [filter].
    destruct (negb (existsb (fun ex => contains ex t) ignores)) eqn:E;
      [|exact IH].
    cbn [filter]. rewrite E. now f_equal.
  - intros targets. unfold ignores_apply. simpl.
    induction targets as [|t targets IH]; simpl; congruence.
  - intros ignores targets Hin. unfold ignores_apply.
    induction targets as [|t targets IH]; [reflexivity|].
    cbn [filter].
    assert (E : existsb (fun ex => contains ex t) ignores = true).
    { apply existsb_exists. exists []. split; [exact Hin|].
      destruct t; reflexivity. }
    rewrite E. exact IH.
Qed.

Lemma ignores_apply_composes_witness :
  ignores_apply [py "test"; []] [py "src/main.go"] = [].
Proof.
  destruct ignores_apply_composes as [_ [_ [_ H]]].
  apply H. right. now left.
Defined.

(* ------------------------------------------------------------------ *)
(** *** The document *)




(** X19. A text file that is not large and does not hold exactly the words of
    the sentinel is shown as it is, between the fences, and reading it
    leaves the file system as it was. *)
Theorem file_content_text_file
  (cfg : config) (st : fs) (path : str) (f : file)
  (Hf : lookup st (Path path) = Some f)
  (Hr : can_read f = true)
  (Hsmall : st_size f <= LARGE_SIZE_FILE cfg * 1024 * 1024)
  (Hclean : ends_cleanly (text f) = true)
  (Hother : List.concat (good_lines (text f)) <> py "Not a text file") :
  file_content cfg path st
  = (Ok (verbatim (List.concat (good_lines (text f)))), st).
Proof.
  unfold file_content, bind at 1, lift.
  destruct (read_file_small cfg st (Path path) f Hf Hsmall) as [-> _].
  rewrite Hr, Hclean.
  destruct (str_eqb (List.concat (good_lines (text f))) (py "Not a text file"))
    eqn:E; [|reflexivity].
  apply str_eqb_eq in E. contradiction.
Qed.

Lemma file_content_text_file_witness :
  file_content shipped (py "a.txt") Examples.corrupt_fs
  = (Ok (fence ++ py "hi" ++ fence), Examples.corrupt_fs).
Proof.
  assert (Hsmall : st_size {| st_size := 2; can_read := true;
                              text := Line (py "hi") Eof |}
                   <= LARGE_SIZE_FILE shipped * 1024 * 1024)
    by (vm_compute; discriminate).
  assert (Hother : List.concat (good_lines (Line (py "hi") Eof))
                   <> py "Not a text file")
    by (vm_compute; discriminate).
  apply (file_content_text_file shipped Examples.corrupt_fs (py "a.txt")
           {| st_size := 2; can_read := true; text := Line (py "hi") Eof |}
           eq_refl eq_refl Hsmall eq_refl Hother).
Defined.

Lemma files_loop_missing (cfg : config) (file : str) (files : list str) :
  In file files ->
  forall text st,
    lookup st (Path file) = None ->
    exists e, fst (files_loop cfg files text st) = Raise e.
Proof.
  induction files as [|f files IH]; intros Hin text st Hmiss; [destruct Hin|].
  cbn [files_loop]. unfold bind at 1.
  destruct (file_content cfg f st) as [[content|e] st1] eqn:E.
  - destruct Hin as [->|Hin].
    + exfalso. unfold file_content, bind at 1, lift in E.
      rewrite (read_file_missing cfg st (Path file) false Hmiss) in E.
      discriminate.
    + apply (IH Hin).
      pose proof (file_content_disk cfg f st) as D. rewrite E in D.
      simpl in D. simpl. rewrite D. exact Hmiss.
  - exists e. reflexivity.
Qed.

(** X20. One file of the list that does not exist stops the whole document:
    [make_text_from_files] raises and returns no text, whatever the other
    files are and wherever the missing one stands in the list. *)
Theorem make_text_from_files_missing_file
  (cfg : config) (files : list str) (file : str) (description : option str)
  (st : fs)
  (Hin : In file files)
  (Hmiss : lookup st (Path file) = None) :
  exists e,
    fst (make_text_from_files cfg files description st) = Raise e.
Proof.
  unfold make_text_from_files. cbv zeta. unfold bind at 1.
  destruct (files_loop_missing cfg file files Hin
              (py "Project structure" ++ [nl; nl] ++ paths_as_tree files
               ++ [nl; nl] ++ py "---" ++ [nl; nl]) st Hmiss) as [e He].
  destruct (files_loop cfg files _ st) as [[text|e'] st1]; simpl in He.
  - discriminate.
  - exists e'. reflexivity.
Qed.

Lemma make_text_from_files_missing_file_witness :
  exists e,
    fst (make_text_from_files shipped [py "a.txt"; py "gone.txt"] None
           Examples.corrupt_fs) = Raise e.
Proof.
  apply (make_text_from_files_missing_file shipped
           [py "a.txt"; py "gone.txt"] (py "gone.txt") None
           Examples.corrupt_fs).
  - right. now left.
  - reflexivity.
Defined.

Lemma file_content_without_archives (cfg : config) (file : str) (st : fs) :
  READ_COMPRESSED_FILES cfg = false ->
  snd (file_content cfg file st) = st.
Proof.
  intros H. unfold file_content, bind at 1, lift.
  destruct (read_file cfg st (Path file) false) as [content_raw|e];
    [|reflexivity].
  destruct (str_eqb content_raw (py "Not a text file")); [|reflexivity].
  unfold bind at 1.
  destruct (inspect_archive st file) as [[t|]|e]; try reflexivity.
  now rewrite H.
Qed.

(** X21. With [READ_COMPRESSED_FILES] off, building the document creates no
    temporary file and leaves the file system as it was, whether the
    document is returned or an exception is raised. *)
Theorem make_text_from_files_without_archives
  (cfg : config) (files : list str) (description : option str) (st : fs)
  (Hoff : READ_COMPRESSED_FILES cfg = false) :
  snd (make_text_from_files cfg files description st) = st.
Proof.
  assert (G : forall text st0, snd (files_loop cfg files text st0) = st0).
  { induction files as [|file files IH]; intros text st0; [reflexivity|].
    cbn [files_loop]. unfold bind at 1.
    pose proof (file_content_without_archives cfg file st0 Hoff) as E.
    destruct (file_content cfg file st0) as [[content|e] st1]; simpl in E;
      subst st1; [apply IH | reflexivity]. }
  unfold make_text_from_files. cbv zeta. unfold bind at 1.
  match goal with
  | |- context [files_loop cfg files ?t st] =>
      pose proof (G t st) as E; destruct (files_loop cfg files t st)
        as [[text|e] st1]
  end; simpl in E; subst st1; [|reflexivity].
  destruct description as [d|]; [destruct (nonempty d)|]; reflexivity.
Qed.

Lemma make_text_from_files_without_archives_witness :
  snd (make_text_from_files
         {| READ_COMPRESSED_FILES := false; LARGE_SIZE_FILE := 10;
            MAX_LINES_FOR_LARGE_FILE := Some 1000 |}
         [py "pack.zip"] None Examples.zip_fs)
  = Examples.zip_fs.
Proof.
  apply (make_text_from_files_without_archives
           {| READ_COMPRESSED_FILES := false; LARGE_SIZE_FILE := 10;
              MAX_LINES_FOR_LARGE_FILE := Some 1000 |}
           [py "pack.zip"] None Examples.zip_fs eq_refl).
Defined.

Lemma file_content_eq (cfg : config) (file : str) (st : fs) :
  file_content cfg file st
  = match read_file cfg st (Path file) false with
    | Raise e => (Raise e, st)
    | Ok content_raw =>
        if str_eqb content_raw (py "Not a text file") then
          match inspect_archive st file with
          | Raise e => (Raise e, st)
          | Ok (Some _) =>
              if READ_COMPRESSED_FILES cfg then
                (match fst (read_archive cfg file st) with
                 | Ok rendered => Ok (fence ++ rendered ++ fence)
                 | Raise e => Raise e
                 end,
                 snd (read_archive cfg file st))
              else (Ok (py "`Archive skipped`" ++ [nl]), st)
          | Ok None => (Ok (fence ++ py "Not a text file" ++ fence), st)
          end
        else (Ok (fence ++ content_raw ++ fence), st)
    end.
Proof.
  unfold file_content, bind at 1, lift.
  destruct (read_file cfg st (Path file) false) as [content_raw|e];
    [|reflexivity].
  destruct (str_eqb content_raw (py "Not a text file")); [|reflexivity].
  unfold bind at 1.
  destruct (inspect_archive st file) as [[t|]|e]; try reflexivity.
  destruct (READ_COMPRESSED_FILES cfg); [|reflexivity].
  unfold bind, ret.
  destruct (read_archive cfg file st) as [[rendered|e] st1]; reflexivity.
Qed.

Lemma file_content_fst_disk (cfg : config) (file : str) (st st' : fs) :
  disk st' = disk st ->
  fst (file_content cfg file st') = fst (file_content cfg file st).
Proof.
  intros D. rewrite !file_content_eq.
  rewrite (read_file_lookup cfg st' st (Path file) (Path file) false
             (lookup_path_disk st st' file D)).
  destruct (read_file cfg st (Path file) false) as [content_raw|e];
    [|reflexivity].
  destruct (str_eqb content_raw (py "Not a text file")); [|reflexivity].
  rewrite (inspect_archive_disk st st' file D).
  destruct (inspect_archive st file) as [[t|]|e]; try reflexivity.
  destruct (READ_COMPRESSED_FILES cfg); [|reflexivity].
  cbn [fst]. now rewrite (read_archive_fst_disk cfg st st' file D).
Qed.

Lemma files_loop_cons (cfg : config) (file : str) (files : list str)
  (text : str) (st : fs) :
  files_loop cfg (file :: files) text st
  = match file_content cfg file st with
    | (Ok content, st1) =>
        files_loop cfg files (text ++ file_block file content) st1
    | (Raise e, st1) => (Raise e, st1)
    end.
Proof. reflexivity. Qed.

Lemma make_text_from_files_eq (cfg : config) (files : list str)
  (description : option str) (st : fs) :
  make_text_from_files cfg files description st
  = match files_loop cfg files (document_head files) st with
    | (Ok text, st1) => (Ok (text ++ description_part description), st1)
    | (Raise e, st1) => (Raise e, st1)
    end.
Proof.
  unfold make_text_from_files. cbv zeta. unfold bind at 1.
  fold (document_head files).
  destruct (files_loop cfg files (document_head files) st)
    as [[text|e] st1]; [|reflexivity].
  unfold description_part.
  destruct description as [d|]; [destruct (nonempty d)|];
    unfold ret; rewrite ?app_nil_r; reflexivity.
Qed.

(** X22. The document depends on the directory only: temporary files left by
    earlier runs, or by earlier archives of the same run, change nothing in
    what [make_text_from_files] returns. *)
Theorem make_text_from_files_ignores_temps
  (cfg : config) (files : list str) (description : option str)
  (st st' : fs)
  (Hd : disk st' = disk st) :
  fst (make_text_from_files cfg files description st')
  = fst (make_text_from_files cfg files description st).
Proof.
  assert (G : forall text s s',
             disk s' = disk s ->
             fst (files_loop cfg files text s')
             = fst (files_loop cfg files text s)).
  { induction files as [|file files IH]; intros text s s' D; [reflexivity|].
    rewrite !files_loop_cons.
    pose proof (file_content_fst_disk cfg file s s' D) as E.
    pose proof (file_content_disk cfg file s) as D1.
    pose proof (file_content_disk cfg file s') as D2.
    destruct (file_content cfg file s') as [r1 s1'].
    destruct (file_content cfg file s) as [r2 s1].
    simpl in E, D1, D2. subst r2. destruct r1 as [content|e]; [|reflexivity].
    apply IH. congruence. }
  rewrite !make_text_from_files_eq.
  pose proof (G (document_head files) st st' Hd) as E.
  destruct (files_loop cfg files (document_head files) st') as [r1 s1].
  destruct (files_loop cfg files (document_head files) st) as [r2 s2].
  simpl in E. subst r2. destruct r1; reflexivity.
Qed.

Lemma make_text_from_files_ignores_temps_witness :
  fst (make_text_from_files shipped [py "pack.zip"] None Examples.zip_fs_later)
  = fst (make_text_from_files shipped [py "pack.zip"] None Examples.zip_fs).
Proof.
  apply (make_text_from_files_ignores_temps shipped [py "pack.zip"] None
           Examples.zip_fs Examples.zip_fs_later eq_refl).
Defined.

(* ------------------------------------------------------------------ *)
(** *** [main] *)

(** X23. The list of files that [main] collects holds, in the order of the walk,
    every file of every directory joined to the path of its directory,
    except the files whose name is the name of the script: those are left
    out in every directory, not only the script itself. *)
Theorem collect_files_spec (script_name : str) (walk : walk_result) :
  (forall p,
      In p (collect_files script_name walk)
      <-> exists root dirs files file,
            In (root, dirs, files) walk /\ In file files
            /\ file <> script_name /\ p = path_join root file)
  /\ (forall root dirs files walk',
         collect_files script_name ((root, dirs, files) :: walk')
         = map (path_join root)
             (filter (fun file => negb (str_eqb script_name file)) files)
           ++ collect_files script_name walk')
  /\ (forall root file,
         nonempty root = true -> endswith [slash] root = false ->
         startswith [slash] file = false ->
         path_join root file = root ++ [slash] ++ file).
Proof.
  split; [|split].
  - intros p. unfold collect_files. rewrite in_flat_map. split.
    + intros [[[root dirs] files] [Hw Hp]].
      apply in_map_iff in Hp. destruct Hp as [file [<- Hf]].
      apply filter_In in Hf. destruct Hf as [Hf Hne].
      exists root, dirs, files, file. repeat split; auto.
      intros ->. rewrite (proj2 (str_eqb_eq script_name script_name) eq_refl)
        in Hne. discriminate.
    + intros [root [dirs [files [file [Hw [Hf [Hne ->]]]]]]].
      exists (root, dirs, files). split; [exact Hw|].
      apply in_map, filter_In. split; [exact Hf|].
      apply negb_true_iff, not_true_is_false. intros E.
      apply str_eqb_eq in E. congruence.
  - reflexivity.
  - intros root file Hr He Hf. unfold path_join. now rewrite Hf, Hr, He.
Qed.

Lemma collect_files_spec_witness :
  collect_files (basename (py "./tools/dir2txt.py")) Runs.project_walk
  = [py "proj/README"; py "proj/src/main.go"; py "proj/src/test_util.go"]
  /\ ~ In (py "proj/src/dir2txt.py")
         (collect_files (py "dir2txt.py") Runs.project_walk).
Proof.
  split; [reflexivity|].
  destruct (collect_files_spec (py "dir2txt.py") Runs.project_walk)
    as [H _].
  intros Hin. apply (proj1 (H _)) in Hin.
  destruct Hin as [root [dirs [files [file [Hw [Hf [Hne E]]]]]]].
  destruct Hw as [Hw|[Hw|[]]]; inversion Hw; subst; clear Hw;
    repeat (destruct Hf as [<-|Hf]; [vm_compute in E; try discriminate|]);
    try (destruct Hf); apply Hne; reflexivity.
Defined.

Lemma split_nonempty (sep : char) (s : str) : split sep s <> [].
Proof.
  destruct s as [|c s]; simpl; [discriminate|].
  destruct (N.eqb c sep); [discriminate|].
  destruct (split sep s); discriminate.
Qed.

Lemma split_trailing_sep (sep : char) (s : str) :
  split sep (s ++ [sep]) = split sep s ++ [[]].
Proof.
  induction s as [|c s IH]; simpl.
  - now rewrite N.eqb_refl.
  - destruct (N.eqb c sep); [now rewrite IH|].
    rewrite IH. pose proof (split_nonempty sep s) as H.
    destruct (split sep s) as [|w ws]; [congruence | reflexivity].
Qed.

Lemma split_leading_sep (sep : char) (s : str) :
  split sep (sep :: s) = [] :: split sep s.
Proof. simpl. now rewrite N.eqb_refl. Qed.

(** X24. How [main] filters: without an ignore option, or with an empty one, the
    list is kept as it is; otherwise a path is kept exactly when none of the
    comma-separated items occurs in it.  An empty item matches every path,
    so an ignore list that ends or starts with a comma removes every
    file. *)
Theorem filter_files_cases (file_list : list str) :
  filter_files None file_list = file_list
  /\ filter_files (Some []) file_list = file_list
  /\ (forall i p,
         nonempty i = true ->
         (In p (filter_files (Some i) file_list)
          <-> In p file_list
              /\ forall ex, In ex (split comma i) -> ~ substring ex p))
  /\ (forall i, filter_files (Some (i ++ [comma])) file_list = [])
  /\ (forall i, filter_files (Some (comma :: i)) file_list = []).
Proof.
  assert (E : forall ignores,
             In [] ignores -> ignores_apply ignores file_list = []).
  { intros ignores Hin. unfold ignores_apply.
    induction file_list as [|t l IH]; [reflexivity|].
    cbn [filter].
    assert (X : existsb (fun ex => contains ex t) ignores = true).
    { apply existsb_exists. exists []. split; [exact Hin|].
      destruct t; reflexivity. }
    rewrite X. exact IH. }
  split; [reflexivity|]. split; [reflexivity|]. split; [|split].
  - intros i p Hi. unfold filter_files. rewrite Hi.
    unfold ignores_apply. rewrite filter_In, negb_true_iff.
    split; intros [Hin H]; split; auto.
    + intros ex Hex Hsub. apply contains_spec in Hsub.
      assert (X : existsb (fun ex => contains ex p) (split comma i) = true)
        by (apply existsb_exists; eauto).
      congruence.
    + apply not_true_is_false. intros X. apply existsb_exists in X.
      destruct X as [ex [Hex Hc]]. apply contains_spec in Hc.
      exact (H ex Hex Hc).
  - intros i. unfold filter_files.
    replace (nonempty (i ++ [comma])) with true by (destruct i; reflexivity).
    apply E. rewrite split_trailing_sep. apply in_or_app. right. now left.
  - intros i. unfold filter_files. cbn [nonempty].
    apply E. rewrite split_leading_sep. now left.
Qed.

Lemma filter_files_cases_witness :
  filter_files (Some (py "test,"))
    [py "proj/README"; py "proj/src/main.go"] = []
  /\ In (py "proj/src/main.go")
       (filter_files (Some (py "test"))
          [py "proj/src/test_util.go"; py "proj/src/main.go"]).
Proof.
  destruct (filter_files_cases [py "proj/README"; py "proj/src/main.go"])
    as [_ [_ [_ [Hcomma _]]]].
  split; [exact (Hcomma (py "test"))|].
  destruct (filter_files_cases
              [py "proj/src/test_util.go"; py "proj/src/main.go"])
    as [_ [_ [Hkeep _]]].
  apply (Hkeep (py "test") _ eq_refl). split; [right; now left|].
  intros ex [<-|[]] H. apply contains_spec in H. vm_compute in H.
  discriminate.
Defined.


Lemma make_text_from_files_disk (cfg : config) (files : list str)
  (description : option str) (st : fs) :
  disk (snd (make_text_from_files cfg files description st)) = disk st.
Proof.
  rewrite make_text_from_files_eq.
  pose proof (files_loop_disk cfg files (document_head files) st) as D.
  destruct (files_loop cfg files (document_head files) st) as [[text|e] st1];
    exact D.
Qed.



(* ------------------------------------------------------------------ *)
(** *** Temporary files over a whole document *)

Lemma file_content_temps (cfg : config) (path : str) (st : fs) :
  exists added, temps (snd (file_content cfg path st)) = temps st ++ added.
Proof.
  rewrite file_content_eq.
  assert (Same : exists added : list file, temps st = temps st ++ added)
    by (exists []; now rewrite app_nil_r).
  destruct (read_file cfg st (Path path) false) as [content_raw|e];
    [|exact Same].
  destruct (str_eqb content_raw (py "Not a text file")); [|exact Same].
  destruct (inspect_archive st path) as [[t|]|e]; try exact Same.
  destruct (READ_COMPRESSED_FILES cfg); [|exact Same].
  cbn [snd]. destruct (read_archive_grown cfg st path) as [_ T].
  eexists. exact T.
Qed.

(** X26. Building the document never removes a temporary file and never touches
    the directory: after [make_text_from_files], whether it returned or
    raised, the directory is as before and the temporary files are those
    that were there, followed by the ones made for the archives that were
    read. *)
Theorem make_text_from_files_keeps_temps
  (cfg : config) (files : list str) (description : option str) (st : fs) :
  let st' := snd (make_text_from_files cfg files description st) in
  disk st' = disk st
  /\ (exists added, temps st' = temps st ++ added)
  /\ (forall n f, lookup st (TempName n) = Some f ->
                  lookup st' (TempName n) = Some f).
Proof.
  assert (G : forall text s,
             exists added,
               temps (snd (files_loop cfg files text s)) = temps s ++ added).
  { induction files as [|file files IH]; intros text s.
    - exists []. simpl. now rewrite app_nil_r.
    - rewrite files_loop_cons.
      destruct (file_content_temps cfg file s) as [a1 E1].
      destruct (file_content cfg file s) as [[content|e] s1]; simpl in E1.
      + destruct (IH (text ++ file_block file content) s1) as [a2 E2].
        exists (a1 ++ a2). rewrite E2, E1, app_assoc. reflexivity.
      + exists a1. exact E1. }
  cbv zeta.
  assert (T : exists added,
             temps (snd (make_text_from_files cfg files description st))
             = temps st ++ added).
  { rewrite make_text_from_files_eq.
    destruct (G (document_head files) st) as [added E].
    destruct (files_loop cfg files (document_head files) st)
      as [[text|e] st1]; exists added; exact E. }
  split; [apply make_text_from_files_disk|]. split; [exact T|].
  intros n f H. destruct T as [added T]. simpl in *. rewrite T.
  rewrite nth_error_app1; [exact H|]. apply nth_error_Some. congruence.
Qed.

Lemma make_text_from_files_keeps_temps_witness :
  lookup (snd (make_text_from_files shipped [py "pack.zip"] None
                 Examples.zip_fs_later)) (TempName 0)
  = Some (written_file (py "earlier")).
Proof.
  destruct (make_text_from_files_keeps_temps shipped [py "pack.zip"] None
              Examples.zip_fs_later) as [_ [_ H]].
  apply H. reflexivity.
Defined.
